(** * Batch normalization, VGG and NiN blocks of the d2l notebooks

    A shallow embedding of the Python code cells of

    - [chapter_convolutional-modern/batch-norm.ipynb]
      ([batch_norm], [BatchNorm.__init__], [BatchNorm.forward]),
    - [chapter_convolutional-modern/vgg.ipynb] ([vgg_block], [vgg], [conv_arch]),
    - [chapter_convolutional-modern/nin.ipynb] ([nin_block]).

    The notebooks call into MXNet ([nd], [autograd], [gluon.nn]).  The part of
    that framework the cells rely on is modelled first: n-dimensional arrays
    as rectangular nested lists, NumPy-style broadcasting of the binary
    operators, reductions along axes, and errors as an exception monad.  The
    element type is kept abstract (class [Scalar]), so that every statement
    about which operations are composed holds for any arithmetic, rounded or
    exact.  Two instances are given: the real numbers, which serve for
    concrete inputs of such statements, and IEEE 754 float32, the element
    type of the arrays of the notebooks, for the statements that depend on
    rounding. *)

From Stdlib Require Import String.
From Stdlib Require Import List Arith ZArith QArith Bool Lia.
From Stdlib Require Import Reals Lra.
From Stdlib Require Import SpecFloat.
Import ListNotations.

Set Warnings "-register-all".
Close Scope Q_scope.
Close Scope R_scope.
Open Scope nat_scope.

(** ** Exceptions *)

(** The two kinds of failure a cell can end in: an [assert] of the notebook's
    own code, and an error raised inside the framework (shape mismatch, axis
    out of range, parameter read before initialization). *)
Inductive exn : Type :=
| AssertionError
| MXNetError.

Inductive result (A : Type) : Type :=
| Ok (a : A)
| Raise (e : exn).

Arguments Ok {A} a.
Arguments Raise {A} e.

Definition bind {A B : Type} (m : result A) (k : A -> result B) : result B :=
  match m with
  | Ok a => k a
  | Raise e => Raise e
  end.

Notation "x <- m ;; k" := (bind m (fun x => k))
  (at level 61, m at next level, right associativity).
Notation "' p <- m ;; k" := (bind m (fun x => match x with p => k end))
  (at level 61, p pattern, m at next level, right associativity).

(** Python's [assert c]. *)
Definition py_assert (c : bool) : result unit :=
  if c then Ok tt else Raise AssertionError.

(** ** Scalars *)

(** The arithmetic of array elements and of Python floats.  [lit] reads a
    decimal literal of the source, [sofnat] converts an element count. *)
Class Scalar (F : Type) : Type := {
  lit : Q -> F;
  sofnat : nat -> F;
  sadd : F -> F -> F;
  ssub : F -> F -> F;
  smul : F -> F -> F;
  sdiv : F -> F -> F;
  ssqrt : F -> F
}.


(** ** N-dimensional arrays *)

Inductive tensor (F : Type) : Type :=
| Scal (x : F)
| Arr (l : list (tensor F)).

Arguments Scal {F} x.
Arguments Arr {F} l.

Section NDArray.

Context {F : Type} `{SF : Scalar F}.

(** [X.shape], read off the first element at each depth. *)
Fixpoint shape (t : tensor F) : list nat :=
  match t with
  | Scal _ => []
  | Arr l => length l :: match l with
                         | [] => []
                         | x :: _ => shape x
                         end
  end.

(** [len(X.shape)] *)
Definition rank (t : tensor F) : nat := length (shape t).

(** Element-wise application. *)
Fixpoint tmap (f : F -> F) (t : tensor F) : tensor F :=
  match t with
  | Scal x => Scal (f x)
  | Arr l => Arr (map (tmap f) l)
  end.

(** An array of shape [s] filled with [v] ([nd.zeros], [init.One()], ...). *)
Fixpoint full (s : list nat) (v : F) : tensor F :=
  match s with
  | [] => Scal v
  | n :: s' => Arr (repeat (full s' v) n)
  end.

(** Prepend [k] axes of length one. *)
Fixpoint lift (k : nat) (t : tensor F) : tensor F :=
  match k with
  | O => t
  | S k' => Arr [lift k' t]
  end.

(** Broadcasting binary operator on arrays of equal rank: along each axis
    the lengths agree, or one of them is 1 and that operand is repeated. *)
Fixpoint bcast2 (f : F -> F -> F) (a b : tensor F) {struct a} : result (tensor F) :=
  match a, b with
  | Scal x, Scal y => Ok (Scal (f x y))
  | Arr la, Arr lb =>
      if length la =? length lb then
        l <- (fix zip (la lb : list (tensor F)) : result (list (tensor F)) :=
                match la, lb with
                | [], [] => Ok []
                | x :: la', y :: lb' =>
                    z <- bcast2 f x y ;; r <- zip la' lb' ;; Ok (z :: r)
                | _, _ => Raise MXNetError
                end) la lb ;;
        Ok (Arr l)
      else
        match la, lb with
        | [x], _ =>
            l <- (fix right (lb : list (tensor F)) : result (list (tensor F)) :=
                    match lb with
                    | [] => Ok []
                    | y :: lb' => z <- bcast2 f x y ;; r <- right lb' ;; Ok (z :: r)
                    end) lb ;;
            Ok (Arr l)
        | _, [y] =>
            l <- (fix left (la : list (tensor F)) : result (list (tensor F)) :=
                    match la with
                    | [] => Ok []
                    | x :: la' => z <- bcast2 f x y ;; r <- left la' ;; Ok (z :: r)
                    end) la ;;
            Ok (Arr l)
        | _, _ => Raise MXNetError
        end
  | _, _ => Raise MXNetError
  end.

(** The binary operators [+], [-], [*], [/] between two arrays: the operand
    of lower rank gets leading axes of length one, then [bcast2]. *)
Definition bop (f : F -> F -> F) (a b : tensor F) : result (tensor F) :=
  bcast2 f (lift (rank b - rank a) a) (lift (rank a - rank b) b).

(** Sum of a non-empty list of arrays, left to right. *)
Definition sum_list (l : list (tensor F)) : result (tensor F) :=
  match l with
  | [] => Raise MXNetError
  | x :: xs => fold_left (fun acc y => a <- acc ;; bop sadd a y) xs (Ok x)
  end.

(** [sum(axis=k, keepdims=keep)] for one axis. *)
Fixpoint sum_axis (keep : bool) (k : nat) (t : tensor F) {struct t} : result (tensor F) :=
  match t with
  | Scal _ => Raise MXNetError
  | Arr l =>
      match k with
      | O => s <- sum_list l ;; Ok (if keep then Arr [s] else s)
      | S k' =>
          l' <- (fix each (l : list (tensor F)) : result (list (tensor F)) :=
                   match l with
                   | [] => Ok []
                   | x :: r => y <- sum_axis keep k' x ;; r' <- each r ;; Ok (y :: r')
                   end) l ;;
          Ok (Arr l')
      end
  end.

(** Number of elements a reduction over [axes] runs through. *)
Definition count_along (axes : list nat) (t : tensor F) : nat :=
  fold_right (fun k acc => nth k (shape t) 0 * acc) 1 axes.

(** The framework has no array without axes: a reduction that leaves none
    returns an array of shape [(1,)]. *)
Definition at_least_1d (t : tensor F) : tensor F :=
  match t with
  | Scal _ => Arr [t]
  | Arr _ => t
  end.

(** [X.mean(axis=axes, keepdims=keep)]; [axes] ascending, the innermost axis
    is reduced first. *)
Definition nd_mean (axes : list nat) (keep : bool) (t : tensor F) : result (tensor F) :=
  s <- fold_right (fun k acc => r <- acc ;; sum_axis keep k r) (Ok t) axes ;;
  Ok (at_least_1d (tmap (fun x => sdiv x (sofnat (count_along axes t))) s)).

(** Operators between an array and a Python float: [t + c], [c * t]. *)
Definition plus_scalar (t : tensor F) (c : F) : tensor F := tmap (fun x => sadd x c) t.
Definition mul_scalar (c : F) (t : tensor F) : tensor F := tmap (fun x => smul c x) t.
(** [t ** 2], each element times itself. *)
Definition square (t : tensor F) : tensor F := tmap (fun x => smul x x) t.
(** [nd.sqrt] *)
Definition nd_sqrt (t : tensor F) : tensor F := tmap ssqrt t.

End NDArray.

(** ** batch-norm.ipynb *)

Section BatchNormCode.

Context {F : Type} `{SF : Scalar F}.

(** The divisor [nd.sqrt(var + eps)] of both standardization formulas. *)
Definition divisor (var : tensor F) (eps : F) : tensor F :=
  nd_sqrt (plus_scalar var eps).

(** The statistics of the training branch of [batch_norm]: the [if]/[else]
    on [len(X.shape) == 2] that binds [mean] and [var]. *)
Definition batch_stats (X : tensor F) : result (tensor F * tensor F) :=
  if rank X =? 2 then
    mean <- nd_mean [0] false X ;;
    d <- bop ssub X mean ;;
    var <- nd_mean [0] false (square d) ;;
    Ok (mean, var)
  else
    mean <- nd_mean [0; 2; 3] true X ;;
    d <- bop ssub X mean ;;
    var <- nd_mean [0; 2; 3] true (square d) ;;
    Ok (mean, var).

(** [batch_norm(X, gamma, beta, moving_mean, moving_var, eps, momentum)];
    [is_training] is the value of [autograd.is_training()]. *)
Definition batch_norm (is_training : bool)
    (X gamma beta moving_mean moving_var : tensor F) (eps momentum : F)
  : result (tensor F * tensor F * tensor F) :=
  '(X_hat, moving_mean, moving_var) <-
    (if negb is_training then
       d <- bop ssub X moving_mean ;;
       X_hat <- bop sdiv d (divisor moving_var eps) ;;
       Ok (X_hat, moving_mean, moving_var)
     else
       _ <- py_assert ((rank X =? 2) || (rank X =? 4)) ;;
       '(mean, var) <- batch_stats X ;;
       d <- bop ssub X mean ;;
       X_hat <- bop sdiv d (divisor var eps) ;;
       moving_mean <- bop sadd (mul_scalar momentum moving_mean)
                               (mul_scalar (ssub (lit 1) momentum) mean) ;;
       moving_var <- bop sadd (mul_scalar momentum moving_var)
                              (mul_scalar (ssub (lit 1) momentum) var) ;;
       Ok (X_hat, moving_mean, moving_var)) ;;
  g <- bop smul gamma X_hat ;;
  Y <- bop sadd g beta ;;
  Ok (Y, moving_mean, moving_var).

(** Devices ([mx.Context]), and arrays placed on one. *)
Inductive device : Type :=
| cpu
| gpu (i : nat).

Definition device_eqb (c1 c2 : device) : bool :=
  match c1, c2 with
  | cpu, cpu => true
  | gpu i, gpu j => i =? j
  | _, _ => false
  end.

Record NDArray : Type := mkNDArray {
  ctx : device;
  val : tensor F
}.

Definition copyto (a : NDArray) (c : device) : NDArray :=
  {| ctx := c; val := val a |}.

(** [nd.zeros(shape)] allocates on the CPU. *)
Definition nd_zeros (s : list nat) : NDArray :=
  {| ctx := cpu; val := full s (lit 0) |}.

(** Initializers and parameters of [gluon]: [params.get] declares a
    parameter with a shape and an initializer, [initialize] allocates its
    data, [data()] reads it and fails before that. *)
Inductive initializer : Type :=
| init_One
| init_Zero.

Definition init_value (i : initializer) : F :=
  match i with
  | init_One => lit 1
  | init_Zero => lit 0
  end.

Record Param : Type := mkParam {
  p_name : string;
  p_shape : list nat;
  p_init : initializer;
  p_data : option (tensor F)
}.

Definition params_get (name : string) (s : list nat) (i : initializer) : Param :=
  {| p_name := name; p_shape := s; p_init := i; p_data := None |}.

(** [Parameter.initialize]: a parameter declared with an initializer of its
    own is filled by it, whichever initializer [net.initialize] is given. *)
Definition param_initialize (p : Param) : Param :=
  {| p_name := p_name p; p_shape := p_shape p; p_init := p_init p;
     p_data := Some (full (p_shape p) (init_value (p_init p))) |}.

Definition data (p : Param) : result (tensor F) :=
  match p_data p with
  | Some t => Ok t
  | None => Raise MXNetError
  end.

(** The attributes of a [BatchNorm] instance. *)
Record BatchNorm : Type := mkBatchNorm {
  gamma : Param;
  beta : Param;
  moving_mean : NDArray;
  moving_var : NDArray
}.

(** [BatchNorm.__init__(self, num_features, num_dims)], for
    [num_features >= 1]: the framework refuses the shape of
    [nd.zeros((1, 0))], so with [num_features = 0] the constructor raises,
    which this definition does not show; the statements about it assume
    [0 < num_features].  The parameters are declared only ([p_data] is
    [None]); the moving statistics are allocated. *)
Definition BatchNorm_init (num_features : nat) (num_dims : Z) : BatchNorm :=
  let shape := if (num_dims =? 2)%Z then [1; num_features]
               else [1; num_features; 1; 1] in
  {| gamma := params_get "gamma" shape init_One;
     beta := params_get "beta" shape init_Zero;
     moving_mean := nd_zeros shape;
     moving_var := nd_zeros shape |}.

(** [net.initialize(ctx=ctx)] as far as this layer goes: both parameters
    are allocated and filled by their initializers.  The device they are
    put on is not recorded. *)
Definition BatchNorm_initialize (self : BatchNorm) : BatchNorm :=
  {| gamma := param_initialize (gamma self);
     beta := param_initialize (beta self);
     moving_mean := moving_mean self;
     moving_var := moving_var self |}.

(** [BatchNorm.forward(self, X)]: the output and the layer afterwards.
    [batch_norm] works on the values.  The framework refuses arithmetic
    between arrays on different devices; a parameter carries no device
    here, so a result [Ok] stands for a call whose parameters sit on the
    device of [X], and says nothing of a call whose parameters sit
    elsewhere, which raises. *)
Definition forward (is_training : bool) (self : BatchNorm) (X : NDArray)
  : result (NDArray * BatchNorm) :=
  let self :=
    if negb (device_eqb (ctx (moving_mean self)) (ctx X)) then
      {| gamma := gamma self; beta := beta self;
         moving_mean := copyto (moving_mean self) (ctx X);
         moving_var := copyto (moving_var self) (ctx X) |}
    else self in
  g <- data (gamma self) ;;
  b <- data (beta self) ;;
  '(Y, mm, mv) <- batch_norm is_training (val X) g b
                    (val (moving_mean self)) (val (moving_var self))
                    (lit (1 # 100000)) (lit (9 # 10)) ;;
  Ok ({| ctx := ctx X; val := Y |},
      {| gamma := gamma self; beta := beta self;
         moving_mean := {| ctx := ctx (moving_mean self); val := mm |};
         moving_var := {| ctx := ctx (moving_var self); val := mv |} |}).

End BatchNormCode.

Arguments NDArray F : clear implicits.
Arguments Param F : clear implicits.
Arguments BatchNorm F : clear implicits.

(** ** vgg.ipynb and nin.ipynb *)

Module Gluon.

(** The layers of [gluon.nn] the two notebooks construct, with the
    constructor arguments they pass.  An integer kernel size, stride or
    padding [n] stands for [(n, n)]; the defaults of [Conv2D] are strides 1
    and padding 0, and no activation. *)
Inductive block : Type :=
| Conv2D (channels kernel_size strides padding : Z) (activation : option string)
| MaxPool2D (pool_size strides : Z)
| Dense (units : Z) (activation : option string)
| Dropout (rate : Q)
| Sequential (children : list block).

(** [blk.add(b1, ..., bn)] *)
Definition add (blk : block) (bs : list block) : block :=
  match blk with
  | Sequential children => Sequential (children ++ bs)
  | _ => blk
  end.

(** [range(n)] *)
Definition range (n : Z) : list Z := map Z.of_nat (seq 0 (Z.to_nat n)).

Definition relu : option string := Some "relu"%string.

Definition vgg_block (num_convs num_channels : Z) : block :=
  let blk := Sequential [] in
  let blk := fold_left
               (fun blk _ => add blk [Conv2D num_channels 3 1 1 relu])
               (range num_convs) blk in
  let blk := add blk [MaxPool2D 2 2] in
  blk.

Definition conv_arch : list (Z * Z) :=
  [(1, 64); (1, 128); (2, 256); (2, 512); (2, 512)]%Z.

Definition vgg (conv_arch : list (Z * Z)) : block :=
  let net := Sequential [] in
  (* The convolutional layer part *)
  let net := fold_left
               (fun net '(num_convs, num_channels) =>
                  add net [vgg_block num_convs num_channels])
               conv_arch net in
  (* The fully connected layer part *)
  let net := add net [Dense 4096 relu; Dropout (1 # 2);
                      Dense 4096 relu; Dropout (1 # 2);
                      Dense 10 None] in
  net.

Definition nin_block (num_channels kernel_size strides padding : Z) : block :=
  let blk := Sequential [] in
  let blk := add blk [Conv2D num_channels kernel_size strides padding relu;
                      Conv2D num_channels 1 1 0 relu;
                      Conv2D num_channels 1 1 0 relu] in
  blk.

(** What the claims count: children of a container, and convolutional
    layers at any depth. *)
Definition children (b : block) : list block :=
  match b with
  | Sequential cs => cs
  | _ => []
  end.

Definition is_conv (b : block) : bool :=
  match b with
  | Conv2D _ _ _ _ _ => true
  | _ => false
  end.

Fixpoint count_convs (b : block) : nat :=
  match b with
  | Conv2D _ _ _ _ _ => 1
  | Sequential cs => fold_right (fun c acc => count_convs c + acc) 0 cs
  | _ => 0
  end.

End Gluon.

(** ** Shapes and indices

    The vocabulary the statements below are written in: what it is for an
    array to have a shape, the element at an index, the array given by a
    function of the index, and how broadcasting and reduction act on shapes
    and indices. *)

Section Indexing.

Context {F : Type} `{SF : Scalar F}.

(** [t] is rectangular of shape [s]. *)
Fixpoint has_shape (s : list nat) (t : tensor F) {struct s} : bool :=
  match s, t with
  | [], Scal _ => true
  | n :: s', Arr l => (length l =? n) && forallb (has_shape s') l
  | _, _ => false
  end.

(** Every axis has at least one element. *)
Definition positive (s : list nat) : bool := forallb (fun n => 0 <? n) s.

(** [idx] addresses an element of an array of shape [s]. *)
Fixpoint in_bounds (s idx : list nat) : bool :=
  match s, idx with
  | [], [] => true
  | n :: s', i :: idx' => (i <? n) && in_bounds s' idx'
  | _, _ => false
  end.

(** [t[i1, ..., ik]] *)
Fixpoint tget (idx : list nat) (t : tensor F) {struct idx} : F :=
  match idx, t with
  | [], Scal x => x
  | i :: idx', Arr l => tget idx' (nth i l (Scal (lit 0)))
  | _, _ => lit 0
  end.

(** The array of shape [s] whose element at [idx] is [f idx]. *)
Fixpoint tabulate (s : list nat) (f : list nat -> F) : tensor F :=
  match s with
  | [] => Scal (f [])
  | n :: s' => Arr (map (fun i => tabulate s' (fun idx => f (i :: idx))) (seq 0 n))
  end.

(** Broadcasting of two shapes of equal rank: whether they are compatible,
    the shape of the result, and the index read in an operand for an index
    of the result. *)
Fixpoint compatible (sa sb : list nat) : bool :=
  match sa, sb with
  | [], [] => true
  | n :: sa', m :: sb' => ((n =? m) || (n =? 1) || (m =? 1)) && compatible sa' sb'
  | _, _ => false
  end.

Fixpoint bshape (sa sb : list nat) : list nat :=
  match sa, sb with
  | n :: sa', m :: sb' => (if n =? 1 then m else n) :: bshape sa' sb'
  | _, _ => []
  end.

Fixpoint clip (s idx : list nat) : list nat :=
  match s, idx with
  | n :: s', i :: idx' => (if n =? 1 then 0 else i) :: clip s' idx'
  | _, _ => []
  end.

(** Reduction along axis [k]: the shape left, and the index of the [i]-th
    summand for an index of the result. *)
Definition reduced (keep : bool) (k : nat) (s : list nat) : list nat :=
  firstn k s ++ (if keep then [1] else []) ++ skipn (S k) s.

Definition summand (keep : bool) (k i : nat) (idx : list nat) : list nat :=
  firstn k idx ++ i :: skipn (if keep then S k else k) idx.

(** Sum of a non-empty list of scalars, left to right. *)
Definition ssum (l : list F) : F :=
  match l with
  | [] => lit 0
  | x :: xs => fold_left sadd xs x
  end.

(** [sum over i < n of f i] *)
Definition ssum_upto (n : nat) (f : nat -> F) : F := ssum (map f (seq 0 n)).

(** The statistics as the text of the notebook defines them.  For a matrix
    of [n] rows: the mean of column [j], and the mean of the squared
    deviations from it. *)
Definition col_mean (n : nat) (X : tensor F) (j : nat) : F :=
  sdiv (ssum_upto n (fun i => tget [i; j] X)) (sofnat n).

Definition col_var (n : nat) (X : tensor F) (j : nat) : F :=
  sdiv (ssum_upto n (fun i =>
          let d := ssub (tget [i; j] X) (col_mean n X j) in smul d d))
       (sofnat n).

(** For an array of shape [(n, c, h, w)]: the sum of [f] over the
    [n * h * w] positions of channel [j], then the mean of channel [j] and
    the mean of the squared deviations from it. *)
Definition chan_sum (n h w : nat) (f : nat -> nat -> nat -> F) : F :=
  ssum_upto n (fun i => ssum_upto h (fun y => ssum_upto w (fun x => f i y x))).

Definition chan_mean (n h w : nat) (X : tensor F) (j : nat) : F :=
  sdiv (chan_sum n h w (fun i y x => tget [i; j; y; x] X)) (sofnat (n * h * w)).

Definition chan_var (n h w : nat) (X : tensor F) (j : nat) : F :=
  sdiv (chan_sum n h w (fun i y x =>
          let d := ssub (tget [i; j; y; x] X) (chan_mean n h w X j) in smul d d))
       (sofnat (n * h * w)).

(** Statistics over the batch axis alone, one per position [(j, y, x)]. *)
Definition axis0_mean (n : nat) (X : tensor F) (j y x : nat) : F :=
  sdiv (ssum_upto n (fun i => tget [i; j; y; x] X)) (sofnat n).

(** Monadic map and zip, the loops inside [bcast2] and [sum_axis]. *)
Definition mapM {A B : Type} (f : A -> result B) : list A -> result (list B) :=
  fix each (l : list A) : result (list B) :=
    match l with
    | [] => Ok []
    | x :: r => y <- f x ;; r' <- each r ;; Ok (y :: r')
    end.

Definition zipM {A B C : Type} (f : A -> B -> result C)
  : list A -> list B -> result (list C) :=
  fix zip (la : list A) (lb : list B) : result (list C) :=
    match la, lb with
    | [], [] => Ok []
    | x :: la', y :: lb' => z <- f x y ;; r <- zip la' lb' ;; Ok (z :: r)
    | _, _ => Raise MXNetError
    end.

(** The inputs [BatchNorm] hands to [batch_norm]: a batch of [n] rows of [d]
    features with parameters and moving statistics of shape [(1, d)], or a
    batch of [n] images of [c] channels, height [h] and width [w] with
    parameters and moving statistics of shape [(1, c, 1, 1)]. *)
Definition matrix_input (n d : nat)
    (X gamma beta moving_mean moving_var : tensor F) : bool :=
  (0 <? n) && (0 <? d) && has_shape [n; d] X &&
  has_shape [1; d] gamma && has_shape [1; d] beta &&
  has_shape [1; d] moving_mean && has_shape [1; d] moving_var.

Definition image_input (n c h w : nat)
    (X gamma beta moving_mean moving_var : tensor F) : bool :=
  (0 <? n) && (0 <? c) && (0 <? h) && (0 <? w) &&
  has_shape [n; c; h; w] X &&
  has_shape [1; c; 1; 1] gamma && has_shape [1; c; 1; 1] beta &&
  has_shape [1; c; 1; 1] moving_mean && has_shape [1; c; 1; 1] moving_var.

(** Every element of [t] satisfies [P]. *)
Fixpoint tall (P : F -> Prop) (t : tensor F) : Prop :=
  match t with
  | Scal x => P x
  | Arr l => (fix all (l : list (tensor F)) : Prop :=
                match l with
                | [] => True
                | x :: r => tall P x /\ all r
                end) l
  end.

End Indexing.

(** A computation that, when it fails, fails with the framework's error. *)
Definition native {A : Type} (m : result A) : Prop :=
  forall e, m = Raise e -> e = MXNetError.

(** ** The real numbers as scalars *)

#[export] Instance RScalar : Scalar R := {
  lit := Q2R;
  sofnat := INR;
  sadd := Rplus;
  ssub := Rminus;
  smul := Rmult;
  sdiv := Rdiv;
  ssqrt := sqrt
}.


(** ** float32 elements

    The arrays of the notebooks have the default element type of [nd],
    float32.  A Python [float] such as [eps] is a binary64 number; when an
    array operator takes it as its scalar operand, as in [var + eps], the
    framework converts it to the element type of the array.  Both formats
    follow IEEE 754 and round to nearest, ties to even, which is the
    arithmetic of [SpecFloat] at precision 24 and 53.

    The instance below gives the element-wise operators on float32 arrays.
    It is used for the divisor and for the prediction branch, which are
    element-wise throughout; the order in which a reduction adds up, and
    [1.0 - momentum], which Python computes in binary64 before the
    conversion, are not rendered by it. *)

(** An integer as a binary64 number. *)
Definition of_int64 (z : Z) : spec_float := binary_normalize 53 1024 z 0 false.

(** The binary64 value of a decimal literal of the source, the literal given
    as a fraction.  The quotient is rounded once, as Python rounds a
    literal, when numerator and denominator are binary64 numbers themselves:
    below [2 ^ 53], as those of the notebooks are, or a power of two. *)
Definition py_float (q : Q) : spec_float :=
  SFdiv 53 1024 (of_int64 (Qnum q)) (of_int64 (Zpos (Qden q))).

(** The conversion of a binary64 number to float32. *)
Definition to_float32 (x : spec_float) : spec_float :=
  match x with
  | S754_finite s m e => binary_round 24 128 s m e
  | _ => x
  end.

#[export] Instance Float32 : Scalar spec_float | 10 := {
  lit q := to_float32 (py_float q);
  sofnat n := binary_normalize 24 128 (Z.of_nat n) 0 false;
  sadd := SFadd 24 128;
  ssub := SFsub 24 128;
  smul := SFmul 24 128;
  sdiv := SFdiv 24 128;
  ssqrt := SFsqrt 24 128
}.

(** A float above zero in the format of [prec] and [emax]: plus infinity, or
    a finite number of positive sign whose exponent is in range from
    below. *)
Definition above_zero (prec emax : Z) (x : spec_float) : Prop :=
  match x with
  | S754_finite false _ e => (emin prec emax <= e)%Z
  | S754_infinity false => True
  | _ => False
  end.

(** ** Concrete inputs *)

Module Sample.

(** A batch of two rows of two features, with the parameters and moving
    statistics of a fresh [BatchNorm(2, num_dims=2)]. *)
Definition X : tensor R :=
  Arr [Arr [Scal 1%R; Scal 2%R]; Arr [Scal 3%R; Scal 6%R]].
Definition gamma : tensor R := Arr [Arr [Scal 1%R; Scal 1%R]].
Definition beta : tensor R := Arr [Arr [Scal 0%R; Scal 0%R]].
Definition moving_mean : tensor R := Arr [Arr [Scal 0%R; Scal 0%R]].
Definition moving_var : tensor R := Arr [Arr [Scal 0%R; Scal 0%R]].

(** One image of one channel, one row and two columns, with the parameters
    and moving statistics of a fresh [BatchNorm(1, num_dims=4)]. *)
Definition image : tensor R := Arr [Arr [Arr [Arr [Scal 0%R; Scal 2%R]]]].
Definition gamma4 : tensor R := Arr [Arr [Arr [Arr [Scal 1%R]]]].
Definition beta4 : tensor R := Arr [Arr [Arr [Arr [Scal 0%R]]]].
Definition moving_mean4 : tensor R := Arr [Arr [Arr [Arr [Scal 0%R]]]].
Definition moving_var4 : tensor R := Arr [Arr [Arr [Arr [Scal 0%R]]]].

(** An array with three axes. *)
Definition cube : tensor R := Arr [Arr [Arr [Scal 1%R]]].

Definition eps : R := lit (1 # 100000).
Definition momentum : R := lit (9 # 10).

End Sample.

Module Sample32.

(** The [eps] of [BatchNorm.forward], and a Python float above zero that is
    below every positive float32: [2.0 ** -200]. *)
Definition eps : spec_float := py_float (1 # 100000).
Definition tiny_eps : spec_float := py_float (Qmake 1 (2 ^ 200)).

(** One row of one feature, with the parameters and moving statistics of a
    fresh [BatchNorm(1, num_dims=2)]. *)
Definition X : tensor spec_float := Arr [Arr [Scal (lit 1)]].
Definition gamma : tensor spec_float := Arr [Arr [Scal (lit 1)]].
Definition beta : tensor spec_float := Arr [Arr [Scal (lit 0)]].
Definition moving_mean : tensor spec_float := Arr [Arr [Scal (lit 0)]].
Definition moving_var : tensor spec_float := Arr [Arr [Scal (lit 0)]].

End Sample32.

(** ** Layers in use *)

Section Layers.

Context {F : Type} `{SF : Scalar F}.

(** A [BatchNorm] layer ready for batches of rows of [d] features: its
    parameters are initialized, parameters and moving statistics have shape
    [(1, d)], and the two moving statistics sit on one device.  Likewise for
    batches of images of [c] channels and shape [(1, c, 1, 1)]. *)
Definition matrix_layer (d : nat) (self : BatchNorm F) : bool :=
  match p_data (gamma self), p_data (beta self) with
  | Some g, Some b =>
      (0 <? d) && has_shape [1; d] g && has_shape [1; d] b &&
      has_shape [1; d] (val (moving_mean self)) &&
      has_shape [1; d] (val (moving_var self)) &&
      device_eqb (ctx (moving_mean self)) (ctx (moving_var self))
  | _, _ => false
  end.

Definition image_layer (c : nat) (self : BatchNorm F) : bool :=
  match p_data (gamma self), p_data (beta self) with
  | Some g, Some b =>
      (0 <? c) && has_shape [1; c; 1; 1] g && has_shape [1; c; 1; 1] b &&
      has_shape [1; c; 1; 1] (val (moving_mean self)) &&
      has_shape [1; c; 1; 1] (val (moving_var self)) &&
      device_eqb (ctx (moving_mean self)) (ctx (moving_var self))
  | _, _ => false
  end.

(** All five arrays of [batch_norm] of one shape [s]. *)
Definition same_shape_input (s : list nat)
    (X gamma beta moving_mean moving_var : tensor F) : bool :=
  positive s && has_shape s X && has_shape s gamma && has_shape s beta &&
  has_shape s moving_mean && has_shape s moving_var.

End Layers.

(** ** The other cells of vgg.ipynb and nin.ipynb *)

Module Nets.

Import Gluon.

(** Python's [a // b] on integers: floor division, [ZeroDivisionError]
    ([None]) when [b] is 0. *)
Definition floordiv (a b : Z) : option Z :=
  if (b =? 0)%Z then None else Some (a / b)%Z.

(** [[(pair[0], pair[1] // ratio) for pair in conv_arch]] *)
Fixpoint shrink (ratio : Z) (conv_arch : list (Z * Z)) : option (list (Z * Z)) :=
  match conv_arch with
  | [] => Some []
  | pair_ :: rest =>
      match floordiv (snd pair_) ratio with
      | None => None
      | Some c =>
          match shrink ratio rest with
          | None => None
          | Some rest' => Some ((fst pair_, c) :: rest')
          end
      end
  end.

Definition ratio : Z := 4.

(** [small_conv_arch], and [net = vgg(small_conv_arch)]. *)
Definition small_conv_arch : option (list (Z * Z)) := shrink ratio conv_arch.

Definition small_net : option block := option_map vgg small_conv_arch.

(** The layers the network of nin.ipynb adds next to the blocks. *)
Inductive layer : Type :=
| Blk (b : block)
| GlobalAvgPool2D
| Flatten.

(** The [net] of nin.ipynb. *)
Definition nin_net : list layer :=
  [Blk (nin_block 96 11 4 0);
   Blk (MaxPool2D 3 2);
   Blk (nin_block 256 5 1 2);
   Blk (MaxPool2D 3 2);
   Blk (nin_block 384 3 1 1);
   Blk (MaxPool2D 3 2);
   Blk (Dropout (1 # 2));
   (* There are 10 label classes *)
   Blk (nin_block 10 3 1 1);
   GlobalAvgPool2D;
   Flatten].

(** *** Output shapes

    [blk(X).shape] as a function of [X.shape], for arrays in the layout
    (batch, channels, height, width).  Along one spatial axis of length [x],
    a window of size [k] moved by [s] over the axis padded by [p] on either
    side gives [(x + 2 p - k) // s + 1] positions; the framework refuses a
    window larger than the padded axis.  Batch sizes and channel counts are
    passed through as they are given: that the framework wants them
    positive is left to the statements. *)
Definition window (x k s p : Z) : result Z :=
  if ((0 <? k) && (0 <? s) && (0 <=? p) && (k <=? x + 2 * p))%Z
  then Ok ((x + 2 * p - k) / s + 1)%Z
  else Raise MXNetError.

Definition window2 (n c h w k s p : Z) : result (list Z) :=
  h' <- window h k s p ;;
  w' <- window w k s p ;;
  Ok [n; c; h'; w'].

Fixpoint out_shape (b : block) (s : list Z) {struct b} : result (list Z) :=
  match b with
  | Conv2D channels kernel_size strides padding _ =>
      match s with
      | [n; _; h; w] => window2 n channels h w kernel_size strides padding
      | _ => Raise MXNetError
      end
  | MaxPool2D pool_size strides =>
      match s with
      | [n; c; h; w] => window2 n c h w pool_size strides 0
      | _ => Raise MXNetError
      end
  | Dense units _ =>
      match s with
      | n :: _ => Ok [n; units]
      | [] => Raise MXNetError
      end
  | Dropout _ => Ok s
  | Sequential children =>
      (fix through (bs : list block) (s : list Z) : result (list Z) :=
         match bs with
         | [] => Ok s
         | b' :: bs' => s' <- out_shape b' s ;; through bs' s'
         end) children s
  end.

Definition layer_shape (l : layer) (s : list Z) : result (list Z) :=
  match l with
  | Blk b => out_shape b s
  | GlobalAvgPool2D =>
      match s with
      | [n; c; _; _] => Ok [n; c; 1; 1]%Z
      | _ => Raise MXNetError
      end
  | Flatten =>
      match s with
      | n :: rest => Ok [n; fold_right Z.mul 1%Z rest]
      | [] => Raise MXNetError
      end
  end.

(** [for layer in net: X = layer(X); print(layer.name, X.shape)]: the
    shapes printed, in order. *)
Fixpoint trace {L : Type} (apply : L -> list Z -> result (list Z))
    (net : list L) (s : list Z) : result (list (list Z)) :=
  match net with
  | [] => Ok []
  | l :: net' =>
      s' <- apply l s ;;
      r <- trace apply net' s' ;;
      Ok (s' :: r)
  end.

(** The shape of [net(X)]. *)
Fixpoint run {L : Type} (apply : L -> list Z -> result (list Z))
    (net : list L) (s : list Z) : result (list Z) :=
  match net with
  | [] => Ok s
  | l :: net' => s' <- apply l s ;; run apply net' s'
  end.

End Nets.

(** * Properties *)

(** ** The model on the sample inputs *)

Example shape_sample : shape Sample.X = [2; 2] /\ rank Sample.cube = 3.
Proof. split; reflexivity. Qed.

Example mean_axis0_sample :
  nd_mean [0] false Sample.X =
  Ok (Arr [Scal ((1 + 3) / INR 2)%R; Scal ((2 + 6) / INR 2)%R]).
Proof. reflexivity. Qed.

(** The mean of a vector is a vector of one element. *)
Example mean_vector_sample :
  nd_mean [0] false (Arr [Scal 1%R; Scal 3%R]) =
  Ok (Arr [Scal ((1 + 3) / INR 2)%R]).
Proof. reflexivity. Qed.

Example mean_axes023_sample :
  nd_mean [0; 2; 3] true Sample.image =
  Ok (Arr [Arr [Arr [Arr [Scal ((0 + 2) / INR 2)%R]]]]).
Proof. reflexivity. Qed.

Example broadcast_row_sample :
  bop Rminus Sample.X (Arr [Scal 1%R; Scal 2%R]) =
  Ok (Arr [Arr [Scal (1 - 1)%R; Scal (2 - 2)%R];
           Arr [Scal (3 - 1)%R; Scal (6 - 2)%R]]).
Proof. reflexivity. Qed.

(** A shape mismatch is the framework's error, in either mode. *)
Example shape_mismatch_sample :
  let three := Arr [Arr [Scal 0%R; Scal 0%R; Scal 0%R]] in
  bop Rminus Sample.X three = Raise MXNetError /\
  batch_norm false Sample.X Sample.gamma Sample.beta three Sample.moving_var
    Sample.eps Sample.momentum = Raise MXNetError /\
  batch_norm true Sample.X three Sample.beta Sample.moving_mean
    Sample.moving_var Sample.eps Sample.momentum = Raise MXNetError.
Proof. repeat split; reflexivity. Qed.

(** A layer read before [net.initialize(ctx=ctx)] fails in the framework;
    after it, with [ctx] the device of [X], one pass in prediction mode
    takes the moving statistics to that device and leaves their values as
    they were. *)
Example forward_sample :
  let layer := BatchNorm_init 2 2 in
  let X := {| ctx := gpu 0; val := Sample.X |} in
  forward false layer X = Raise MXNetError /\
  exists Y layer',
    forward false (BatchNorm_initialize layer) X = Ok (Y, layer') /\
    ctx Y = gpu 0 /\
    moving_mean layer' = {| ctx := gpu 0; val := full [1; 2] (lit 0) |} /\
    moving_var layer' = {| ctx := gpu 0; val := full [1; 2] (lit 0) |}.
Proof.
  split; [reflexivity|]. eexists _, _. split; [reflexivity|].
  repeat split.
Qed.

(** ** The framework model on well-shaped arrays *)

Ltac split_bounds H :=
  simpl in H;
  repeat (let Hb := fresh "Hb" in
          apply andb_true_iff in H as [Hb H]; apply Nat.ltb_lt in Hb).

Ltac solve_compatible :=
  cbn; rewrite ?Nat.eqb_refl, ?orb_true_r; reflexivity.

Ltac solve_positive H :=
  simpl in H |- *;
  repeat (let Hp := fresh "Hp" in apply andb_true_iff in H as [Hp H]);
  repeat match goal with Hp : _ = true |- _ => rewrite Hp end;
  reflexivity.

Section TensorFacts.

Context {F : Type} `{SF : Scalar F}.

Lemma mapM_map {A B C : Type} (f : B -> result C) (g : A -> B) (h : A -> C)
    (l : list A) :
  (forall x, In x l -> f (g x) = Ok (h x)) ->
  mapM f (map g l) = Ok (map h l).
Proof.
  induction l as [|x l IH]; intros Hl; simpl; [reflexivity|].
  rewrite (Hl x) by (left; reflexivity). simpl.
  fold (mapM f). rewrite IH by (intros y Hy; apply Hl; right; exact Hy).
  reflexivity.
Qed.

Lemma zipM_map {A B B' C : Type} (f : B -> B' -> result C)
    (g : A -> B) (g' : A -> B') (h : A -> C) (l : list A) :
  (forall x, In x l -> f (g x) (g' x) = Ok (h x)) ->
  zipM f (map g l) (map g' l) = Ok (map h l).
Proof.
  induction l as [|x l IH]; intros Hl; simpl; [reflexivity|].
  rewrite (Hl x) by (left; reflexivity). simpl.
  fold (zipM f). rewrite IH by (intros y Hy; apply Hl; right; exact Hy).
  reflexivity.
Qed.

Lemma in_bounds_length (s idx : list nat) :
  in_bounds s idx = true -> length idx = length s.
Proof.
  revert idx; induction s as [|n s IH]; intros [|i idx] H; simpl in *;
    try discriminate; [reflexivity|].
  apply andb_true_iff in H as [_ H]. f_equal. apply IH, H.
Qed.

Lemma nth_map_seq {A : Type} (g : nat -> A) (d : A) (n i : nat) :
  i < n -> nth i (map g (seq 0 n)) d = g i.
Proof.
  intros Hi.
  rewrite (nth_indep _ d (g 0)) by (rewrite length_map, length_seq; exact Hi).
  rewrite map_nth, seq_nth by exact Hi. reflexivity.
Qed.

Lemma tabulate_ext (s : list nat) (f g : list nat -> F) :
  (forall idx, in_bounds s idx = true -> f idx = g idx) ->
  tabulate s f = tabulate s g.
Proof.
  revert f g; induction s as [|n s IH]; intros f g H; simpl.
  - f_equal. apply H. reflexivity.
  - f_equal. apply map_ext_in. intros i Hi. apply in_seq in Hi.
    apply IH. intros idx Hidx. apply H. simpl.
    rewrite Hidx, andb_true_r. apply Nat.ltb_lt. lia.
Qed.

Lemma tget_tabulate (s idx : list nat) (f : list nat -> F) :
  in_bounds s idx = true -> tget idx (tabulate s f) = f idx.
Proof.
  revert idx f; induction s as [|n s IH]; intros [|i idx] f H; simpl in *;
    try discriminate; [reflexivity|].
  apply andb_true_iff in H as [Hi H]. apply Nat.ltb_lt in Hi.
  rewrite nth_map_seq by exact Hi.
  exact (IH idx (fun idx => f (i :: idx)) H).
Qed.

Lemma has_shape_tabulate (s : list nat) (f : list nat -> F) :
  has_shape s (tabulate s f) = true.
Proof.
  revert f; induction s as [|n s IH]; intros f; simpl; [reflexivity|].
  rewrite length_map, length_seq, Nat.eqb_refl. simpl.
  apply forallb_forall. intros t Ht. apply in_map_iff in Ht as [i [<- _]].
  apply IH.
Qed.

Lemma list_tabulate {A : Type} (d : A) (l : list A) :
  l = map (fun i => nth i l d) (seq 0 (length l)).
Proof.
  apply (nth_ext _ _ d d).
  - rewrite length_map, length_seq. reflexivity.
  - intros i Hi. rewrite nth_map_seq by exact Hi. reflexivity.
Qed.

Lemma tabulate_tget (s : list nat) (t : tensor F) :
  has_shape s t = true -> t = tabulate s (fun idx => tget idx t).
Proof.
  revert t; induction s as [|n s IH]; intros [x|l] H; simpl in *;
    try discriminate; [reflexivity|].
  apply andb_true_iff in H as [Hn Hl]. apply Nat.eqb_eq in Hn. subst n.
  f_equal. rewrite (list_tabulate (Scal (lit 0)) l) at 1.
  apply map_ext_in. intros i Hi. apply in_seq in Hi.
  apply IH. rewrite forallb_forall in Hl. apply Hl, nth_In. lia.
Qed.

Lemma shape_tabulate (s : list nat) (f : list nat -> F) :
  positive s = true -> shape (tabulate s f) = s.
Proof.
  revert f; induction s as [|n s IH]; intros f H; simpl in *; [reflexivity|].
  apply andb_true_iff in H as [Hn H]. apply Nat.ltb_lt in Hn.
  rewrite length_map, length_seq. f_equal.
  destruct n as [|n]; [lia|]. simpl. apply IH, H.
Qed.

Lemma rank_tabulate (s : list nat) (f : list nat -> F) :
  positive s = true -> rank (tabulate s f) = length s.
Proof. intros H. unfold rank. rewrite shape_tabulate by exact H. reflexivity. Qed.

Lemma tmap_tabulate (u : F -> F) (s : list nat) (f : list nat -> F) :
  tmap u (tabulate s f) = tabulate s (fun idx => u (f idx)).
Proof.
  revert f; induction s as [|n s IH]; intros f; simpl; [reflexivity|].
  f_equal. rewrite map_map. apply map_ext. intros i. apply IH.
Qed.

Lemma lift_tabulate (k : nat) (s : list nat) (f : list nat -> F) :
  lift k (tabulate s f) = tabulate (repeat 1 k ++ s) (fun idx => f (skipn k idx)).
Proof.
  induction k as [|k IH]; simpl; [reflexivity|].
  rewrite IH. reflexivity.
Qed.

Lemma full_tabulate (s : list nat) (v : F) :
  full s v = tabulate s (fun _ => v).
Proof.
  induction s as [|n s IH]; simpl; [reflexivity|].
  f_equal. rewrite IH. generalize 0.
  induction n as [|n IHn]; intros k; simpl; [reflexivity|].
  f_equal. apply IHn.
Qed.

Lemma bcast2_Arr (f : F -> F -> F) (la lb : list (tensor F)) :
  bcast2 f (Arr la) (Arr lb) =
  if length la =? length lb then
    l <- zipM (bcast2 f) la lb ;; Ok (Arr l)
  else
    match la, lb with
    | [x], _ => l <- mapM (bcast2 f x) lb ;; Ok (Arr l)
    | _, [y] => l <- mapM (fun x => bcast2 f x y) la ;; Ok (Arr l)
    | _, _ => Raise MXNetError
    end.
Proof. reflexivity. Qed.

Lemma clip_head (n i : nat) : i < n -> (if n =? 1 then 0 else i) = i.
Proof. intros Hi. destruct (Nat.eqb_spec n 1); lia. Qed.

(** Broadcasting, element by element. *)
Lemma bcast2_tabulate (f : F -> F -> F) (sa sb : list nat)
    (g h : list nat -> F) :
  compatible sa sb = true ->
  bcast2 f (tabulate sa g) (tabulate sb h) =
  Ok (tabulate (bshape sa sb)
        (fun idx => f (g (clip sa idx)) (h (clip sb idx)))).
Proof.
  revert sb g h; induction sa as [|n sa IH]; intros [|m sb] g h Hc;
    simpl in Hc; try discriminate; [reflexivity|].
  apply andb_true_iff in Hc as [Hnm Hc].
  cbn [tabulate bshape]. rewrite bcast2_Arr.
  rewrite !length_map, !length_seq.
  destruct (Nat.eqb_spec n m) as [->|Hne].
  - (* equal lengths: element by element *)
    erewrite zipM_map; [cbn [bind]|].
    2:{ intros i Hi. apply (IH sb (fun idx => g (i :: idx)) (fun idx => h (i :: idx)) Hc). }
    do 2 f_equal.
    replace (if m =? 1 then m else m) with m by (destruct (m =? 1); reflexivity).
    apply map_ext_in. intros i Hi. apply in_seq in Hi.
    apply tabulate_ext. intros idx _. cbn [clip].
    rewrite clip_head by lia. reflexivity.
  - destruct (Nat.eqb_spec n 1) as [->|Hn1].
    + (* the left operand is repeated *)
      cbn [seq map].
      erewrite mapM_map; [cbn [bind]|].
      2:{ intros i Hi. apply (IH sb (fun idx => g (0 :: idx)) (fun idx => h (i :: idx)) Hc). }
      do 2 f_equal. apply map_ext_in. intros i Hi. apply in_seq in Hi.
      apply tabulate_ext. intros idx _. cbn [clip]. cbn [Nat.eqb].
      destruct (Nat.eqb_spec m 1); [lia|]. reflexivity.
    + (* the right operand is repeated *)
      assert (m = 1) as ->.
      { simpl in Hnm. apply Nat.eqb_eq in Hnm. exact Hnm. }
      cbn [seq map].
      assert (Hm : mapM (fun x => bcast2 f x (tabulate sb (fun idx => h (0 :: idx))))
                     (map (fun i => tabulate sa (fun idx => g (i :: idx))) (seq 0 n))
                   = Ok (map (fun i => tabulate (bshape sa sb)
                              (fun idx => f (g (i :: clip sa idx)) (h (0 :: clip sb idx))))
                           (seq 0 n))).
      { apply mapM_map. intros i Hi.
        apply (IH sb (fun idx => g (i :: idx)) (fun idx => h (0 :: idx)) Hc). }
      destruct n as [|[|n]]; [reflexivity|lia|].
      cbn [seq map] in *. rewrite Hm. cbn [bind]. do 2 f_equal.
Qed.

(** The operators between arrays of any two ranks. *)
Lemma bop_tabulate (f : F -> F -> F) (sa sb : list nat) (g h : list nat -> F) :
  positive sa = true -> positive sb = true ->
  compatible (repeat 1 (length sb - length sa) ++ sa)
             (repeat 1 (length sa - length sb) ++ sb) = true ->
  bop f (tabulate sa g) (tabulate sb h) =
  Ok (tabulate (bshape (repeat 1 (length sb - length sa) ++ sa)
                       (repeat 1 (length sa - length sb) ++ sb))
        (fun idx =>
           f (g (skipn (length sb - length sa)
                   (clip (repeat 1 (length sb - length sa) ++ sa) idx)))
             (h (skipn (length sa - length sb)
                   (clip (repeat 1 (length sa - length sb) ++ sb) idx))))).
Proof.
  intros Ha Hb Hc. unfold bop.
  rewrite !rank_tabulate by assumption. rewrite !lift_tabulate.
  rewrite bcast2_tabulate by exact Hc. reflexivity.
Qed.

Lemma compatible_refl (s : list nat) : compatible s s = true.
Proof.
  induction s as [|n s IH]; simpl; [reflexivity|].
  rewrite Nat.eqb_refl, IH. reflexivity.
Qed.

Lemma bshape_refl (s : list nat) : bshape s s = s.
Proof.
  induction s as [|n s IH]; simpl; [reflexivity|].
  rewrite IH. destruct (n =? 1); reflexivity.
Qed.

Lemma clip_in_bounds (s idx : list nat) :
  in_bounds s idx = true -> clip s idx = idx.
Proof.
  revert idx; induction s as [|n s IH]; intros [|i idx] H; simpl in *;
    try discriminate; [reflexivity|].
  apply andb_true_iff in H as [Hi H]. apply Nat.ltb_lt in Hi.
  rewrite clip_head by exact Hi. f_equal. apply IH, H.
Qed.

(** Two arrays of one shape: the operator acts element by element. *)
Lemma bop_same (f : F -> F -> F) (s : list nat) (g h : list nat -> F) :
  positive s = true ->
  bop f (tabulate s g) (tabulate s h) =
  Ok (tabulate s (fun idx => f (g idx) (h idx))).
Proof.
  intros Hs. rewrite bop_tabulate by
    (try assumption; rewrite Nat.sub_diag; apply compatible_refl).
  rewrite Nat.sub_diag. cbn [repeat app skipn]. rewrite bshape_refl.
  f_equal. apply tabulate_ext. intros idx Hidx.
  rewrite clip_in_bounds by exact Hidx. reflexivity.
Qed.

(** Sums of arrays of one shape. *)
Lemma fold_bop_tabulate {A : Type} (s : list nat) (G : A -> list nat -> F)
    (l : list A) (g0 : list nat -> F) :
  positive s = true ->
  fold_left (fun acc y => a <- acc ;; bop sadd a y)
            (map (fun i => tabulate s (G i)) l) (Ok (tabulate s g0)) =
  Ok (tabulate s (fun idx => fold_left sadd (map (fun i => G i idx) l) (g0 idx))).
Proof.
  intros Hs. revert g0; induction l as [|x l IH]; intros g0; simpl;
    [reflexivity|].
  rewrite bop_same by exact Hs. apply IH.
Qed.

Lemma sum_list_tabulate (s : list nat) (G : nat -> list nat -> F) (n : nat) :
  positive s = true -> 0 < n ->
  sum_list (map (fun i => tabulate s (G i)) (seq 0 n)) =
  Ok (tabulate s (fun idx => ssum_upto n (fun i => G i idx))).
Proof.
  intros Hs Hn. destruct n as [|n]; [lia|].
  cbn [seq map sum_list]. rewrite fold_bop_tabulate by exact Hs.
  reflexivity.
Qed.

Lemma sum_axis_S (keep : bool) (k : nat) (l : list (tensor F)) :
  sum_axis keep (S k) (Arr l) =
  l' <- mapM (sum_axis keep k) l ;; Ok (Arr l').
Proof. reflexivity. Qed.

Lemma positive_reduced (keep : bool) (k : nat) (s : list nat) :
  positive s = true -> positive (reduced keep k s) = true.
Proof.
  revert s; induction k as [|k IH]; intros [|n s] Hs; unfold reduced;
    simpl in *; try (destruct keep; reflexivity).
  - apply andb_true_iff in Hs as [_ Hs]. destruct keep; simpl; exact Hs.
  - apply andb_true_iff in Hs as [Hn Hs]. rewrite Hn. apply (IH s Hs).
Qed.

(** Reduction along one axis, element by element. *)
Lemma sum_axis_tabulate (keep : bool) (k : nat) (s : list nat)
    (g : list nat -> F) :
  positive s = true -> k < length s ->
  sum_axis keep k (tabulate s g) =
  Ok (tabulate (reduced keep k s)
        (fun idx => ssum_upto (nth k s 0) (fun i => g (summand keep k i idx)))).
Proof.
  revert s g; induction k as [|k IH]; intros [|n s] g Hs Hk; simpl in Hk;
    try lia; simpl in Hs; apply andb_true_iff in Hs as [Hn Hs];
    apply Nat.ltb_lt in Hn.
  - cbn [tabulate sum_axis]. rewrite sum_list_tabulate by assumption.
    cbn [bind]. destruct keep; reflexivity.
  - cbn [tabulate]. rewrite sum_axis_S.
    erewrite mapM_map; [cbn [bind]|].
    2:{ intros i Hi. apply (IH s (fun idx => g (i :: idx)) Hs). lia. }
    destruct keep; reflexivity.
Qed.

(** [X.mean(axis=0)] *)
Lemma nd_mean_axis0 (n d : nat) (s : list nat) (g : list nat -> F) :
  positive (n :: d :: s) = true ->
  nd_mean [0] false (tabulate (n :: d :: s) g) =
  Ok (tabulate (d :: s) (fun idx =>
        sdiv (ssum_upto n (fun i => g (i :: idx))) (sofnat n))).
Proof.
  intros Hs. unfold nd_mean, count_along. cbn [fold_right bind].
  rewrite sum_axis_tabulate by (try exact Hs; simpl; lia).
  cbn [bind]. rewrite shape_tabulate by exact Hs.
  rewrite tmap_tabulate. cbn [nth]. rewrite Nat.mul_1_r. reflexivity.
Qed.

(** [X.mean(axis=(0, 2, 3), keepdims=True)] *)
Lemma nd_mean_axes023 (n c h w : nat) (g : list nat -> F) :
  positive [n; c; h; w] = true ->
  nd_mean [0; 2; 3] true (tabulate [n; c; h; w] g) =
  Ok (tabulate [1; c; 1; 1] (fun idx =>
        sdiv (chan_sum n h w (fun i y x => g [i; nth 1 idx 0; y; x]))
             (sofnat (n * h * w)))).
Proof.
  intros Hs. unfold nd_mean, count_along. cbn [fold_right bind].
  rewrite shape_tabulate by exact Hs. cbn [nth].
  rewrite sum_axis_tabulate by (try exact Hs; simpl; lia).
  cbn [bind reduced firstn skipn app nth].
  assert (Hs3 : positive [n; c; h; 1] = true).
  { apply (positive_reduced true 3 _ Hs). }
  rewrite sum_axis_tabulate by (try exact Hs3; simpl; lia).
  cbn [bind reduced firstn skipn app nth].
  assert (Hs2 : positive [n; c; 1; 1] = true).
  { apply (positive_reduced true 2 _ Hs3). }
  rewrite sum_axis_tabulate by (try exact Hs2; simpl; lia).
  cbn [bind reduced firstn skipn app nth].
  rewrite tmap_tabulate. f_equal.
  replace (n * (h * (w * 1))) with (n * h * w) by lia.
  apply tabulate_ext. intros idx Hidx.
  pose proof (in_bounds_length _ _ Hidx) as Hlen.
  destruct idx as [|i [|j [|y [|x [|]]]]]; try discriminate Hlen.
  reflexivity.
Qed.

(** Broadcasting for the shapes [batch_norm] meets. *)
Lemma bshape_head (n m : nat) :
  m = n \/ m = 1 -> (if n =? 1 then m else n) = n.
Proof. intros H. destruct (Nat.eqb_spec n 1); lia. Qed.

Lemma bop_mat_vec (f : F -> F -> F) (n d : nat) (g h : list nat -> F) :
  positive [n; d] = true ->
  bop f (tabulate [n; d] g) (tabulate [d] h) =
  Ok (tabulate [n; d] (fun idx => f (g idx) (h [nth 1 idx 0]))).
Proof.
  intros Hs.
  rewrite bop_tabulate; [|exact Hs|solve_positive Hs|solve_compatible].
  cbn [length Nat.sub repeat app skipn bshape].
  rewrite !bshape_head by (right; reflexivity || left; reflexivity).
  rewrite (bshape_head d d) by (left; reflexivity).
  f_equal. apply tabulate_ext. intros idx Hidx.
  pose proof (in_bounds_length _ _ Hidx) as Hlen.
  destruct idx as [|i [|j [|]]]; try discriminate Hlen.
  split_bounds Hidx. cbn [clip nth skipn Nat.eqb].
  rewrite !clip_head by assumption. reflexivity.
Qed.

Lemma bop_mat_row (f : F -> F -> F) (n d : nat) (g h : list nat -> F) :
  positive [n; d] = true ->
  bop f (tabulate [n; d] g) (tabulate [1; d] h) =
  Ok (tabulate [n; d] (fun idx => f (g idx) (h [0; nth 1 idx 0]))).
Proof.
  intros Hs.
  rewrite bop_tabulate; [|exact Hs|solve_positive Hs|solve_compatible].
  cbn [length Nat.sub repeat app skipn bshape].
  rewrite (bshape_head n 1) by (right; reflexivity).
  rewrite (bshape_head d d) by (left; reflexivity).
  f_equal. apply tabulate_ext. intros idx Hidx.
  pose proof (in_bounds_length _ _ Hidx) as Hlen.
  destruct idx as [|i [|j [|]]]; try discriminate Hlen.
  split_bounds Hidx. cbn [clip nth skipn Nat.eqb].
  rewrite !clip_head by assumption. reflexivity.
Qed.

Lemma bop_row_mat (f : F -> F -> F) (n d : nat) (g h : list nat -> F) :
  positive [n; d] = true ->
  bop f (tabulate [1; d] g) (tabulate [n; d] h) =
  Ok (tabulate [n; d] (fun idx => f (g [0; nth 1 idx 0]) (h idx))).
Proof.
  intros Hs.
  rewrite bop_tabulate; [|solve_positive Hs|exact Hs|solve_compatible].
  cbn [length Nat.sub repeat app skipn bshape Nat.eqb].
  rewrite (bshape_head d d) by (left; reflexivity).
  f_equal. apply tabulate_ext. intros idx Hidx.
  pose proof (in_bounds_length _ _ Hidx) as Hlen.
  destruct idx as [|i [|j [|]]]; try discriminate Hlen.
  split_bounds Hidx. cbn [clip nth skipn Nat.eqb].
  rewrite !clip_head by assumption. reflexivity.
Qed.

Lemma bop_img_chan (f : F -> F -> F) (n c h w : nat) (g k : list nat -> F) :
  positive [n; c; h; w] = true ->
  bop f (tabulate [n; c; h; w] g) (tabulate [1; c; 1; 1] k) =
  Ok (tabulate [n; c; h; w]
        (fun idx => f (g idx) (k [0; nth 1 idx 0; 0; 0]))).
Proof.
  intros Hs.
  rewrite bop_tabulate; [|exact Hs|solve_positive Hs|solve_compatible].
  cbn [length Nat.sub repeat app skipn bshape].
  rewrite (bshape_head n 1), (bshape_head h 1), (bshape_head w 1)
    by (right; reflexivity).
  rewrite (bshape_head c c) by (left; reflexivity).
  f_equal. apply tabulate_ext. intros idx Hidx.
  pose proof (in_bounds_length _ _ Hidx) as Hlen.
  destruct idx as [|i [|j [|y [|x [|]]]]]; try discriminate Hlen.
  split_bounds Hidx. cbn [clip nth skipn Nat.eqb].
  rewrite !clip_head by assumption. reflexivity.
Qed.

Lemma bop_chan_img (f : F -> F -> F) (n c h w : nat) (g k : list nat -> F) :
  positive [n; c; h; w] = true ->
  bop f (tabulate [1; c; 1; 1] g) (tabulate [n; c; h; w] k) =
  Ok (tabulate [n; c; h; w]
        (fun idx => f (g [0; nth 1 idx 0; 0; 0]) (k idx))).
Proof.
  intros Hs.
  rewrite bop_tabulate; [|solve_positive Hs|exact Hs|solve_compatible].
  cbn [length Nat.sub repeat app skipn bshape Nat.eqb].
  rewrite (bshape_head c c) by (left; reflexivity).
  f_equal. apply tabulate_ext. intros idx Hidx.
  pose proof (in_bounds_length _ _ Hidx) as Hlen.
  destruct idx as [|i [|j [|y [|x [|]]]]]; try discriminate Hlen.
  split_bounds Hidx. cbn [clip nth skipn Nat.eqb].
  rewrite !clip_head by assumption. reflexivity.
Qed.

End TensorFacts.

(** ** [batch_norm] on matrices and on images *)

Section BatchNormFacts.

Context {F : Type} `{SF : Scalar F}.

Lemma positive_2 (n d : nat) : 0 < n -> 0 < d -> positive [n; d] = true.
Proof.
  intros Hn Hd. simpl. apply Nat.ltb_lt in Hn, Hd. rewrite Hn, Hd. reflexivity.
Qed.

Lemma positive_4 (n c h w : nat) :
  0 < n -> 0 < c -> 0 < h -> 0 < w -> positive [n; c; h; w] = true.
Proof.
  intros Hn Hc Hh Hw. simpl. apply Nat.ltb_lt in Hn, Hc, Hh, Hw.
  rewrite Hn, Hc, Hh, Hw. reflexivity.
Qed.

(** The statistics of a matrix, as functions of the column. *)
Lemma batch_stats_tabulate_2d (n d : nat) (g : list nat -> F) :
  positive [n; d] = true ->
  batch_stats (tabulate [n; d] g) =
  Ok (tabulate [d] (fun idx =>
        sdiv (ssum_upto n (fun i => g [i; nth 0 idx 0])) (sofnat n)),
      tabulate [d] (fun idx =>
        sdiv (ssum_upto n (fun i =>
                let d0 := ssub (g [i; nth 0 idx 0])
                            (sdiv (ssum_upto n (fun i0 => g [i0; nth 0 idx 0]))
                                  (sofnat n)) in
                smul d0 d0))
             (sofnat n))).
Proof.
  intros Hs.
  unfold batch_stats. rewrite rank_tabulate by exact Hs. cbn [length Nat.eqb].
  rewrite nd_mean_axis0 by exact Hs. cbn [bind].
  rewrite bop_mat_vec by exact Hs. cbn [bind].
  unfold square. rewrite tmap_tabulate.
  rewrite nd_mean_axis0 by exact Hs. cbn [bind].
  do 2 f_equal; apply tabulate_ext; intros idx Hidx;
    pose proof (in_bounds_length _ _ Hidx) as Hlen;
    destruct idx as [|j [|]]; try discriminate Hlen; reflexivity.
Qed.

Lemma batch_stats_2d (n d : nat) (X : tensor F) :
  0 < n -> 0 < d -> has_shape [n; d] X = true ->
  batch_stats X =
  Ok (tabulate [d] (fun idx => col_mean n X (nth 0 idx 0)),
      tabulate [d] (fun idx => col_var n X (nth 0 idx 0))).
Proof.
  intros Hn Hd HX. pose proof (positive_2 _ _ Hn Hd) as Hs.
  transitivity (batch_stats (tabulate [n; d] (fun idx => tget idx X))).
  { f_equal. apply tabulate_tget, HX. }
  rewrite batch_stats_tabulate_2d by exact Hs. reflexivity.
Qed.

(** [batch_norm] in training mode on a matrix: the three results. *)
Lemma batch_norm_train_2d_eq (n d : nat)
    (X gamma beta moving_mean moving_var : tensor F) (eps momentum : F) :
  0 < n -> 0 < d ->
  has_shape [n; d] X = true ->
  has_shape [1; d] gamma = true -> has_shape [1; d] beta = true ->
  has_shape [1; d] moving_mean = true -> has_shape [1; d] moving_var = true ->
  batch_norm true X gamma beta moving_mean moving_var eps momentum =
  Ok (tabulate [n; d] (fun idx =>
        sadd (smul (tget [0; nth 1 idx 0] gamma)
                (sdiv (ssub (tget idx X) (col_mean n X (nth 1 idx 0)))
                      (ssqrt (sadd (col_var n X (nth 1 idx 0)) eps))))
             (tget [0; nth 1 idx 0] beta)),
      tabulate [1; d] (fun idx =>
        sadd (smul momentum (tget idx moving_mean))
             (smul (ssub (lit 1) momentum) (col_mean n X (nth 1 idx 0)))),
      tabulate [1; d] (fun idx =>
        sadd (smul momentum (tget idx moving_var))
             (smul (ssub (lit 1) momentum) (col_var n X (nth 1 idx 0))))).
Proof.
  intros Hn Hd HX Hg Hb Hmm Hmv.
  pose proof (positive_2 _ _ Hn Hd) as Hs.
  pose proof (positive_2 1 d Nat.lt_0_1 Hd) as Hs1.
  match goal with |- _ = ?r => set (rhs := r) end.
  unfold batch_norm. cbn [negb].
  rewrite (batch_stats_2d n d X Hn Hd HX).
  set (cm := col_mean n X). set (cv := col_var n X).
  rewrite (tabulate_tget _ _ HX), (tabulate_tget _ _ Hg), (tabulate_tget _ _ Hb),
    (tabulate_tget _ _ Hmm), (tabulate_tget _ _ Hmv).
  rewrite rank_tabulate by exact Hs. cbn [length Nat.eqb orb py_assert bind].
  rewrite bop_mat_vec by exact Hs. cbn [bind].
  unfold divisor, nd_sqrt, plus_scalar, mul_scalar. rewrite !tmap_tabulate.
  rewrite bop_mat_vec by exact Hs. cbn [bind].
  rewrite bop_mat_vec by exact Hs1. cbn [bind].
  rewrite bop_mat_vec by exact Hs1. cbn [bind].
  rewrite bop_row_mat by exact Hs. cbn [bind].
  rewrite bop_mat_row by exact Hs. cbn [bind].
  subst rhs cm cv. apply (f_equal Ok).
  apply f_equal2; [apply f_equal2|]; apply tabulate_ext; intros idx Hidx;
    pose proof (in_bounds_length _ _ Hidx) as Hlen;
    destruct idx as [|i [|j [|]]]; try discriminate Hlen.
  all: reflexivity.
Qed.

(** [batch_norm] in prediction mode on a matrix. *)
Lemma batch_norm_predict_2d_eq (n d : nat)
    (X gamma beta moving_mean moving_var : tensor F) (eps momentum : F) :
  0 < n -> 0 < d ->
  has_shape [n; d] X = true ->
  has_shape [1; d] gamma = true -> has_shape [1; d] beta = true ->
  has_shape [1; d] moving_mean = true -> has_shape [1; d] moving_var = true ->
  batch_norm false X gamma beta moving_mean moving_var eps momentum =
  Ok (tabulate [n; d] (fun idx =>
        sadd (smul (tget [0; nth 1 idx 0] gamma)
                (sdiv (ssub (tget idx X) (tget [0; nth 1 idx 0] moving_mean))
                      (ssqrt (sadd (tget [0; nth 1 idx 0] moving_var) eps))))
             (tget [0; nth 1 idx 0] beta)),
      moving_mean, moving_var).
Proof.
  intros Hn Hd HX Hg Hb Hmm Hmv.
  pose proof (positive_2 _ _ Hn Hd) as Hs.
  match goal with |- _ = ?r => set (rhs := r) end.
  unfold batch_norm. cbn [negb].
  rewrite (tabulate_tget _ _ HX), (tabulate_tget _ _ Hg), (tabulate_tget _ _ Hb),
    (tabulate_tget _ _ Hmm), (tabulate_tget _ _ Hmv).
  rewrite bop_mat_row by exact Hs. cbn [bind].
  unfold divisor, nd_sqrt, plus_scalar. rewrite !tmap_tabulate.
  rewrite bop_mat_row by exact Hs. cbn [bind].
  rewrite bop_row_mat by exact Hs. cbn [bind].
  rewrite bop_mat_row by exact Hs. cbn [bind].
  rewrite <- (tabulate_tget _ _ Hmm), <- (tabulate_tget _ _ Hmv).
  subst rhs. reflexivity.
Qed.

(** The statistics of a batch of images, as functions of the channel. *)
Lemma batch_stats_tabulate_4d (n c h w : nat) (g : list nat -> F) :
  positive [n; c; h; w] = true ->
  batch_stats (tabulate [n; c; h; w] g) =
  Ok (tabulate [1; c; 1; 1] (fun idx =>
        sdiv (chan_sum n h w (fun i y x => g [i; nth 1 idx 0; y; x]))
             (sofnat (n * h * w))),
      tabulate [1; c; 1; 1] (fun idx =>
        sdiv (chan_sum n h w (fun i y x =>
                let d0 := ssub (g [i; nth 1 idx 0; y; x])
                            (sdiv (chan_sum n h w
                                     (fun i0 y0 x0 => g [i0; nth 1 idx 0; y0; x0]))
                                  (sofnat (n * h * w))) in
                smul d0 d0))
             (sofnat (n * h * w)))).
Proof.
  intros Hs.
  unfold batch_stats. rewrite rank_tabulate by exact Hs. cbn [length Nat.eqb].
  rewrite nd_mean_axes023 by exact Hs. cbn [bind].
  rewrite bop_img_chan by exact Hs. cbn [bind].
  unfold square. rewrite tmap_tabulate.
  rewrite nd_mean_axes023 by exact Hs. cbn [bind].
  reflexivity.
Qed.

Lemma batch_stats_4d (n c h w : nat) (X : tensor F) :
  0 < n -> 0 < c -> 0 < h -> 0 < w -> has_shape [n; c; h; w] X = true ->
  batch_stats X =
  Ok (tabulate [1; c; 1; 1] (fun idx => chan_mean n h w X (nth 1 idx 0)),
      tabulate [1; c; 1; 1] (fun idx => chan_var n h w X (nth 1 idx 0))).
Proof.
  intros Hn Hc Hh Hw HX. pose proof (positive_4 _ _ _ _ Hn Hc Hh Hw) as Hs.
  transitivity (batch_stats (tabulate [n; c; h; w] (fun idx => tget idx X))).
  { f_equal. apply tabulate_tget, HX. }
  rewrite batch_stats_tabulate_4d by exact Hs. reflexivity.
Qed.

(** [batch_norm] in training mode on a batch of images. *)
Lemma batch_norm_train_4d_eq (n c h w : nat)
    (X gamma beta moving_mean moving_var : tensor F) (eps momentum : F) :
  0 < n -> 0 < c -> 0 < h -> 0 < w ->
  has_shape [n; c; h; w] X = true ->
  has_shape [1; c; 1; 1] gamma = true -> has_shape [1; c; 1; 1] beta = true ->
  has_shape [1; c; 1; 1] moving_mean = true ->
  has_shape [1; c; 1; 1] moving_var = true ->
  batch_norm true X gamma beta moving_mean moving_var eps momentum =
  Ok (tabulate [n; c; h; w] (fun idx =>
        sadd (smul (tget [0; nth 1 idx 0; 0; 0] gamma)
                (sdiv (ssub (tget idx X) (chan_mean n h w X (nth 1 idx 0)))
                      (ssqrt (sadd (chan_var n h w X (nth 1 idx 0)) eps))))
             (tget [0; nth 1 idx 0; 0; 0] beta)),
      tabulate [1; c; 1; 1] (fun idx =>
        sadd (smul momentum (tget idx moving_mean))
             (smul (ssub (lit 1) momentum) (chan_mean n h w X (nth 1 idx 0)))),
      tabulate [1; c; 1; 1] (fun idx =>
        sadd (smul momentum (tget idx moving_var))
             (smul (ssub (lit 1) momentum) (chan_var n h w X (nth 1 idx 0))))).
Proof.
  intros Hn Hc Hh Hw HX Hg Hb Hmm Hmv.
  pose proof (positive_4 _ _ _ _ Hn Hc Hh Hw) as Hs.
  pose proof (positive_4 1 c 1 1 Nat.lt_0_1 Hc Nat.lt_0_1 Nat.lt_0_1) as Hs1.
  match goal with |- _ = ?r => set (rhs := r) end.
  unfold batch_norm. cbn [negb].
  rewrite (batch_stats_4d n c h w X Hn Hc Hh Hw HX).
  set (cm := chan_mean n h w X). set (cv := chan_var n h w X).
  rewrite (tabulate_tget _ _ HX), (tabulate_tget _ _ Hg), (tabulate_tget _ _ Hb),
    (tabulate_tget _ _ Hmm), (tabulate_tget _ _ Hmv).
  rewrite rank_tabulate by exact Hs. cbn [length Nat.eqb orb py_assert bind].
  rewrite bop_img_chan by exact Hs. cbn [bind].
  unfold divisor, nd_sqrt, plus_scalar, mul_scalar. rewrite !tmap_tabulate.
  rewrite bop_img_chan by exact Hs. cbn [bind].
  rewrite bop_same by exact Hs1. cbn [bind].
  rewrite bop_same by exact Hs1. cbn [bind].
  rewrite bop_chan_img by exact Hs. cbn [bind].
  rewrite bop_img_chan by exact Hs. cbn [bind].
  subst rhs cm cv. apply (f_equal Ok).
  apply f_equal2; [apply f_equal2|]; apply tabulate_ext; intros idx Hidx;
    pose proof (in_bounds_length _ _ Hidx) as Hlen;
    destruct idx as [|i [|j [|y [|x [|]]]]]; try discriminate Hlen.
  all: reflexivity.
Qed.

(** [batch_norm] in prediction mode on a batch of images. *)
Lemma batch_norm_predict_4d_eq (n c h w : nat)
    (X gamma beta moving_mean moving_var : tensor F) (eps momentum : F) :
  0 < n -> 0 < c -> 0 < h -> 0 < w ->
  has_shape [n; c; h; w] X = true ->
  has_shape [1; c; 1; 1] gamma = true -> has_shape [1; c; 1; 1] beta = true ->
  has_shape [1; c; 1; 1] moving_mean = true ->
  has_shape [1; c; 1; 1] moving_var = true ->
  batch_norm false X gamma beta moving_mean moving_var eps momentum =
  Ok (tabulate [n; c; h; w] (fun idx =>
        sadd (smul (tget [0; nth 1 idx 0; 0; 0] gamma)
                (sdiv (ssub (tget idx X) (tget [0; nth 1 idx 0; 0; 0] moving_mean))
                      (ssqrt (sadd (tget [0; nth 1 idx 0; 0; 0] moving_var) eps))))
             (tget [0; nth 1 idx 0; 0; 0] beta)),
      moving_mean, moving_var).
Proof.
  intros Hn Hc Hh Hw HX Hg Hb Hmm Hmv.
  pose proof (positive_4 _ _ _ _ Hn Hc Hh Hw) as Hs.
  match goal with |- _ = ?r => set (rhs := r) end.
  unfold batch_norm. cbn [negb].
  rewrite (tabulate_tget _ _ HX), (tabulate_tget _ _ Hg), (tabulate_tget _ _ Hb),
    (tabulate_tget _ _ Hmm), (tabulate_tget _ _ Hmv).
  rewrite bop_img_chan by exact Hs. cbn [bind].
  unfold divisor, nd_sqrt, plus_scalar. rewrite !tmap_tabulate.
  rewrite bop_img_chan by exact Hs. cbn [bind].
  rewrite bop_chan_img by exact Hs. cbn [bind].
  rewrite bop_img_chan by exact Hs. cbn [bind].
  rewrite <- (tabulate_tget _ _ Hmm), <- (tabulate_tget _ _ Hmv).
  subst rhs. reflexivity.
Qed.

End BatchNormFacts.

(** ** Where errors come from *)

Section Errors.

Context {F : Type} `{SF : Scalar F}.

Lemma tensor_induction (P : tensor F -> Prop) :
  (forall x, P (Scal x)) ->
  (forall l, Forall P l -> P (Arr l)) ->
  forall t, P t.
Proof.
  intros HS HA. fix IH 1. intros [x|l].
  - apply HS.
  - apply HA. induction l as [|t l IHl]; constructor.
    + apply IH.
    + exact IHl.
Qed.

Lemma native_Ok {A : Type} (a : A) : native (Ok a).
Proof. intros e He. discriminate He. Qed.

Lemma native_Raise {A : Type} : native (@Raise A MXNetError).
Proof. intros e He. injection He as <-. reflexivity. Qed.

Lemma native_bind {A B : Type} (m : result A) (k : A -> result B) :
  native m -> (forall a, native (k a)) -> native (bind m k).
Proof.
  intros Hm Hk e He. destruct m as [a|e']; simpl in He.
  - apply (Hk a e He).
  - injection He as <-. apply Hm. reflexivity.
Qed.

Lemma mapM_native {A B : Type} (f : A -> result B) (l : list A) :
  Forall (fun x => native (f x)) l -> native (mapM f l).
Proof.
  induction 1 as [|x l Hx _ IH]; simpl; [apply native_Ok|].
  apply native_bind; [exact Hx|]. intros y.
  apply native_bind; [exact IH|]. intros r. apply native_Ok.
Qed.

Lemma zipM_native {A B C : Type} (f : A -> B -> result C)
    (la : list A) (lb : list B) :
  Forall (fun x => forall y, native (f x y)) la -> native (zipM f la lb).
Proof.
  intros H. revert lb. induction H as [|x la Hx _ IH]; intros [|y lb]; simpl;
    try apply native_Ok; try apply native_Raise.
  apply native_bind; [apply Hx|]. intros z.
  apply native_bind; [apply IH|]. intros r. apply native_Ok.
Qed.

Lemma bcast2_native (f : F -> F -> F) (a b : tensor F) :
  native (bcast2 f a b).
Proof.
  revert b. induction a as [x|la IH] using tensor_induction; intros [y|lb];
    try apply native_Ok; try apply native_Raise.
  rewrite bcast2_Arr. destruct (length la =? length lb).
  - apply native_bind; [|intros; apply native_Ok].
    apply zipM_native. exact IH.
  - destruct la as [|x [|x' la]].
    + destruct lb as [|y [|y' lb]]; try apply native_Raise.
      simpl. apply native_Ok.
    + apply native_bind; [|intros; apply native_Ok].
      apply mapM_native. inversion IH as [|? ? Hx _]; subst.
      apply Forall_forall. intros y _. apply Hx.
    + destruct lb as [|y [|y' lb]]; try apply native_Raise.
      apply native_bind; [|intros; apply native_Ok].
      apply mapM_native. eapply Forall_impl; [|exact IH].
      intros z Hz. apply Hz.
Qed.

Lemma bop_native (f : F -> F -> F) (a b : tensor F) : native (bop f a b).
Proof. apply bcast2_native. Qed.

Lemma sum_list_native (l : list (tensor F)) : native (sum_list l).
Proof.
  destruct l as [|x xs]; [apply native_Raise|]. simpl.
  assert (H : native (Ok x)) by apply native_Ok.
  revert H. generalize (Ok x). induction xs as [|y xs IH]; intros acc H;
    simpl; [exact H|].
  apply IH. apply native_bind; [exact H|]. intros a. apply bop_native.
Qed.

Lemma sum_axis_native (keep : bool) (k : nat) (t : tensor F) :
  native (sum_axis keep k t).
Proof.
  revert k. induction t as [x|l IH] using tensor_induction; intros k;
    [apply native_Raise|].
  destruct k as [|k].
  - cbn [sum_axis]. apply native_bind; [apply sum_list_native|].
    intros s. apply native_Ok.
  - rewrite sum_axis_S. apply native_bind; [|intros; apply native_Ok].
    apply mapM_native. eapply Forall_impl; [|exact IH].
    intros x Hx. apply Hx.
Qed.

Lemma nd_mean_native (axes : list nat) (keep : bool) (t : tensor F) :
  native (nd_mean axes keep t).
Proof.
  unfold nd_mean. apply native_bind; [|intros; apply native_Ok].
  induction axes as [|k axes IH]; simpl; [apply native_Ok|].
  apply native_bind; [exact IH|]. intros r. apply sum_axis_native.
Qed.

Lemma batch_stats_native (X : tensor F) : native (batch_stats X).
Proof.
  unfold batch_stats. destruct (rank X =? 2);
    repeat first [ apply native_Ok
                 | apply nd_mean_native
                 | apply bop_native
                 | apply native_bind; [|intros ?] ].
Qed.

End Errors.

(** ** The claims about [batch_norm] *)

Ltac split_input H :=
  repeat (let H' := fresh "Hin" in apply andb_true_iff in H as [H H']);
  repeat match goal with
         | Hlt : (0 <? _) = true |- _ => apply Nat.ltb_lt in Hlt
         end.

Ltac solve_bounds :=
  simpl;
  repeat match goal with
         | Hlt : ?i < ?n |- context [?i <? ?n] =>
             rewrite (proj2 (Nat.ltb_lt i n) Hlt)
         end;
  reflexivity.

Section BatchNormClaims.

Context {F : Type} `{SF : Scalar F}.

(** C1.  In training mode, on a matrix [X] of [n] rows and [d] columns,
    [batch_norm] returns [Y] of the shape of [X] with
    [Y[i,j] = gamma[j] * X_hat[i,j] + beta[j]] and
    [X_hat[i,j] = (X[i,j] - mean[j]) / sqrt (var[j] + eps)], where [mean[j]]
    is the mean of column [j] of [X] and [var[j]] the mean of the squared
    deviations of column [j] from it. *)
Theorem batch_norm_train_matrix (n d : nat)
    (X gamma beta moving_mean moving_var : tensor F) (eps momentum : F) :
  matrix_input n d X gamma beta moving_mean moving_var = true ->
  exists Y moving_mean' moving_var',
    batch_norm true X gamma beta moving_mean moving_var eps momentum
      = Ok (Y, moving_mean', moving_var') /\
    has_shape [n; d] Y = true /\
    forall i j, i < n -> j < d ->
      tget [i; j] Y =
      sadd (smul (tget [0; j] gamma)
              (sdiv (ssub (tget [i; j] X) (col_mean n X j))
                    (ssqrt (sadd (col_var n X j) eps))))
           (tget [0; j] beta).
Proof.
  intros Hin. unfold matrix_input in Hin. split_input Hin.
  eexists _, _, _. split; [apply (batch_norm_train_2d_eq n d); assumption|].
  split; [apply has_shape_tabulate|].
  intros i j Hi Hj. rewrite tget_tabulate by solve_bounds. reflexivity.
Qed.

Ltac destruct_bind H :=
  repeat match type of H with
         | bind ?m _ = _ =>
             let E := fresh "E" in
             destruct m as [?|?] eqn:E; cbn [bind] in H; [|discriminate H]
         | match ?p with (_, _) => _ end = _ =>
             destruct p
         end.

(** The two branches of [batch_norm], each written out on its own. *)
Lemma batch_norm_predict_unfold
    (X gamma beta moving_mean moving_var : tensor F) (eps momentum : F) :
  batch_norm false X gamma beta moving_mean moving_var eps momentum =
  (d <- bop ssub X moving_mean ;;
   X_hat <- bop sdiv d (divisor moving_var eps) ;;
   g <- bop smul gamma X_hat ;;
   Y <- bop sadd g beta ;;
   Ok (Y, moving_mean, moving_var)).
Proof.
  unfold batch_norm. cbn [negb].
  destruct (bop ssub X moving_mean) as [d|e]; cbn [bind]; [|reflexivity].
  destruct (bop sdiv d (divisor moving_var eps)); reflexivity.
Qed.

Lemma batch_norm_train_unfold
    (X gamma beta moving_mean moving_var mean var : tensor F) (eps momentum : F) :
  batch_stats X = Ok (mean, var) ->
  batch_norm true X gamma beta moving_mean moving_var eps momentum =
  (_ <- py_assert ((rank X =? 2) || (rank X =? 4)) ;;
   d <- bop ssub X mean ;;
   X_hat <- bop sdiv d (divisor var eps) ;;
   moving_mean' <- bop sadd (mul_scalar momentum moving_mean)
                            (mul_scalar (ssub (lit 1) momentum) mean) ;;
   moving_var' <- bop sadd (mul_scalar momentum moving_var)
                           (mul_scalar (ssub (lit 1) momentum) var) ;;
   g <- bop smul gamma X_hat ;;
   Y <- bop sadd g beta ;;
   Ok (Y, moving_mean', moving_var')).
Proof.
  intros Hst. unfold batch_norm. cbn [negb]. rewrite Hst.
  destruct (py_assert _); cbn [bind]; [|reflexivity].
  repeat match goal with
         | |- context [bind ?m _] =>
             lazymatch m with
             | bop _ _ _ => destruct m; cbn [bind]; try reflexivity
             end
         end.
Qed.

(** C2.  In prediction mode [batch_norm] hands back [moving_mean] and
    [moving_var] as it received them, for every input, and standardizes [X]
    with them: [Y = gamma * (X - moving_mean) / sqrt (moving_var + eps) + beta],
    on matrices and on batches of images.  The batch statistics and the
    updated moving averages appear in training mode only. *)
Theorem batch_norm_two_branches :
  (forall X gamma beta moving_mean moving_var eps momentum Y mm' mv',
     batch_norm false X gamma beta moving_mean moving_var eps momentum
       = Ok (Y, mm', mv') ->
     mm' = moving_mean /\ mv' = moving_var) /\
  (forall n d X gamma beta moving_mean moving_var eps momentum,
     matrix_input n d X gamma beta moving_mean moving_var = true ->
     exists Y,
       batch_norm false X gamma beta moving_mean moving_var eps momentum
         = Ok (Y, moving_mean, moving_var) /\
       has_shape [n; d] Y = true /\
       forall i j, i < n -> j < d ->
         tget [i; j] Y =
         sadd (smul (tget [0; j] gamma)
                 (sdiv (ssub (tget [i; j] X) (tget [0; j] moving_mean))
                       (ssqrt (sadd (tget [0; j] moving_var) eps))))
              (tget [0; j] beta)) /\
  (forall n c h w X gamma beta moving_mean moving_var eps momentum,
     image_input n c h w X gamma beta moving_mean moving_var = true ->
     exists Y,
       batch_norm false X gamma beta moving_mean moving_var eps momentum
         = Ok (Y, moving_mean, moving_var) /\
       has_shape [n; c; h; w] Y = true /\
       forall i j y x, i < n -> j < c -> y < h -> x < w ->
         tget [i; j; y; x] Y =
         sadd (smul (tget [0; j; 0; 0] gamma)
                 (sdiv (ssub (tget [i; j; y; x] X) (tget [0; j; 0; 0] moving_mean))
                       (ssqrt (sadd (tget [0; j; 0; 0] moving_var) eps))))
              (tget [0; j; 0; 0] beta)) /\
  (forall n d X gamma beta moving_mean moving_var eps momentum,
     matrix_input n d X gamma beta moving_mean moving_var = true ->
     exists Y mm' mv',
       batch_norm true X gamma beta moving_mean moving_var eps momentum
         = Ok (Y, mm', mv') /\
       forall j, j < d ->
         tget [0; j] mm' =
           sadd (smul momentum (tget [0; j] moving_mean))
                (smul (ssub (lit 1) momentum) (col_mean n X j)) /\
         tget [0; j] mv' =
           sadd (smul momentum (tget [0; j] moving_var))
                (smul (ssub (lit 1) momentum) (col_var n X j))).
Proof.
  split; [|split; [|split]].
  - intros X gamma beta moving_mean moving_var eps momentum Y mm' mv' H.
    rewrite batch_norm_predict_unfold in H. destruct_bind H.
    split; congruence.
  - intros n d X gamma beta moving_mean moving_var eps momentum H.
    unfold matrix_input in H. split_input H.
    eexists. split; [apply (batch_norm_predict_2d_eq n d); assumption|].
    split; [apply has_shape_tabulate|].
    intros i j Hi Hj. rewrite tget_tabulate by solve_bounds. reflexivity.
  - intros n c h w X gamma beta moving_mean moving_var eps momentum H.
    unfold image_input in H. split_input H.
    eexists. split; [apply (batch_norm_predict_4d_eq n c h w); assumption|].
    split; [apply has_shape_tabulate|].
    intros i j y x Hi Hj Hy Hx. rewrite tget_tabulate by solve_bounds.
    reflexivity.
  - intros n d X gamma beta moving_mean moving_var eps momentum H.
    unfold matrix_input in H. split_input H.
    eexists _, _, _. split; [apply (batch_norm_train_2d_eq n d); assumption|].
    intros j Hj. rewrite !tget_tabulate by solve_bounds. split; reflexivity.
Qed.

(** C3 (as amended).  [batch_norm] makes one check of its own: in training
    mode it asserts that [X] has 2 or 4 axes, and this is the only way it
    ends in [AssertionError].  Every other failure is the framework's error,
    and an error of the first framework call of either branch comes out as
    it was raised. *)
Theorem batch_norm_errors (is_training : bool)
    (X gamma beta moving_mean moving_var : tensor F) (eps momentum : F) :
  (batch_norm is_training X gamma beta moving_mean moving_var eps momentum
     = Raise AssertionError
   <-> is_training = true /\ rank X <> 2 /\ rank X <> 4) /\
  (forall e, bop ssub X moving_mean = Raise e ->
     batch_norm false X gamma beta moving_mean moving_var eps momentum = Raise e) /\
  (forall e, rank X = 2 \/ rank X = 4 -> batch_stats X = Raise e ->
     batch_norm true X gamma beta moving_mean moving_var eps momentum = Raise e).
Proof.
  split; [|split].
  - destruct is_training.
    + unfold batch_norm. cbn [negb].
      destruct (Nat.eqb_spec (rank X) 2) as [H2|H2];
        destruct (Nat.eqb_spec (rank X) 4) as [H4|H4]; cbn [orb py_assert bind].
      4: { split; [intros _; repeat split; assumption|reflexivity]. }
      all: split; [|intros (_ & N2 & N4); contradiction].
      all: intros H; exfalso.
      all: assert (N : native
             ('(mean, var) <- batch_stats X ;;
              d <- bop ssub X mean ;;
              X_hat <- bop sdiv d (divisor var eps) ;;
              mm <- bop sadd (mul_scalar momentum moving_mean)
                             (mul_scalar (ssub (lit 1) momentum) mean) ;;
              mv <- bop sadd (mul_scalar momentum moving_var)
                             (mul_scalar (ssub (lit 1) momentum) var) ;;
              Ok (X_hat, mm, mv)))
        by (apply native_bind; [apply batch_stats_native|]; intros [mean var];
            repeat first [ apply native_Ok | apply bop_native
                         | apply native_bind; [|intros ?] ]).
      all: match type of H with
           | bind ?m _ = _ => destruct m as [[[xh mm] mv]|e] eqn:E
           end; cbn [bind] in H.
      all: try (injection H as ->; specialize (N _ eq_refl); discriminate N).
      all: assert (N' : native (g <- bop smul gamma xh ;; Y <- bop sadd g beta ;;
                               Ok (Y, mm, mv)))
        by (repeat first [ apply native_Ok | apply bop_native
                         | apply native_bind; [|intros ?] ]).
      all: specialize (N' _ H); discriminate N'.
    + split; [|intros [H _]; discriminate H].
      intros H. exfalso. rewrite batch_norm_predict_unfold in H.
      assert (N : native
                (d <- bop ssub X moving_mean ;;
                 X_hat <- bop sdiv d (divisor moving_var eps) ;;
                 g <- bop smul gamma X_hat ;;
                 Y <- bop sadd g beta ;;
                 Ok (Y, moving_mean, moving_var)))
        by (repeat first [ apply native_Ok | apply bop_native
                         | apply native_bind; [|intros ?] ]).
      specialize (N _ H). discriminate N.
  - intros e He. rewrite batch_norm_predict_unfold, He. reflexivity.
  - intros e Hr He. unfold batch_norm. cbn [negb]. rewrite He.
    replace ((rank X =? 2) || (rank X =? 4)) with true; [reflexivity|].
    destruct Hr as [->| ->]; reflexivity.
Qed.

(** C4 (as amended).  In training mode, on a batch of [n] images of [c]
    channels, height [h] and width [w], the statistics are one mean and one
    variance per channel, each taken over the batch axis together with the
    two spatial axes (axes 0, 2 and 3, [n * h * w] elements), of shape
    [(1, c, 1, 1)]; these are the ones [batch_norm] standardizes [X] with. *)
Theorem batch_stats_per_channel (n c h w : nat)
    (X gamma beta moving_mean moving_var : tensor F) (eps momentum : F) :
  image_input n c h w X gamma beta moving_mean moving_var = true ->
  exists mean var Y mm' mv',
    batch_stats X = Ok (mean, var) /\
    has_shape [1; c; 1; 1] mean = true /\
    has_shape [1; c; 1; 1] var = true /\
    (forall j, j < c ->
       tget [0; j; 0; 0] mean = chan_mean n h w X j /\
       tget [0; j; 0; 0] var = chan_var n h w X j) /\
    batch_norm true X gamma beta moving_mean moving_var eps momentum
      = Ok (Y, mm', mv') /\
    has_shape [n; c; h; w] Y = true /\
    forall i j y x, i < n -> j < c -> y < h -> x < w ->
      tget [i; j; y; x] Y =
      sadd (smul (tget [0; j; 0; 0] gamma)
              (sdiv (ssub (tget [i; j; y; x] X) (tget [0; j; 0; 0] mean))
                    (ssqrt (sadd (tget [0; j; 0; 0] var) eps))))
           (tget [0; j; 0; 0] beta).
Proof.
  intros Hin. unfold image_input in Hin. split_input Hin.
  eexists _, _, _, _, _.
  split; [apply (batch_stats_4d n c h w); assumption|].
  split; [apply has_shape_tabulate|].
  split; [apply has_shape_tabulate|].
  split.
  { intros j Hj. rewrite !tget_tabulate by solve_bounds. split; reflexivity. }
  split; [apply (batch_norm_train_4d_eq n c h w); assumption|].
  split; [apply has_shape_tabulate|].
  intros i j y x Hi Hj Hy Hx. rewrite !tget_tabulate by solve_bounds.
  reflexivity.
Qed.

(** C8.  For a valid input in training mode, a matrix or a batch of images,
    the moving averages [batch_norm] returns are
    [momentum * moving_mean + (1 - momentum) * mean] and
    [momentum * moving_var + (1 - momentum) * var], with [mean] and [var] the
    statistics of the batch.  [BatchNorm.forward] is one call of [batch_norm]
    with [eps = 1e-5] and [momentum = 0.9] on the layer's parameters and
    moving statistics: the output and the moving statistics the layer holds
    afterwards are the three results of that call, and it fails as that
    call fails. *)
Theorem moving_average_update :
  (forall n d X gamma beta moving_mean moving_var eps momentum,
     matrix_input n d X gamma beta moving_mean moving_var = true ->
     exists Y mm' mv',
       batch_norm true X gamma beta moving_mean moving_var eps momentum
         = Ok (Y, mm', mv') /\
       has_shape [1; d] mm' = true /\ has_shape [1; d] mv' = true /\
       forall j, j < d ->
         tget [0; j] mm' =
           sadd (smul momentum (tget [0; j] moving_mean))
                (smul (ssub (lit 1) momentum) (col_mean n X j)) /\
         tget [0; j] mv' =
           sadd (smul momentum (tget [0; j] moving_var))
                (smul (ssub (lit 1) momentum) (col_var n X j))) /\
  (forall n c h w X gamma beta moving_mean moving_var eps momentum,
     image_input n c h w X gamma beta moving_mean moving_var = true ->
     exists Y mm' mv',
       batch_norm true X gamma beta moving_mean moving_var eps momentum
         = Ok (Y, mm', mv') /\
       has_shape [1; c; 1; 1] mm' = true /\ has_shape [1; c; 1; 1] mv' = true /\
       forall j, j < c ->
         tget [0; j; 0; 0] mm' =
           sadd (smul momentum (tget [0; j; 0; 0] moving_mean))
                (smul (ssub (lit 1) momentum) (chan_mean n h w X j)) /\
         tget [0; j; 0; 0] mv' =
           sadd (smul momentum (tget [0; j; 0; 0] moving_var))
                (smul (ssub (lit 1) momentum) (chan_var n h w X j))) /\
  (forall is_training (self : BatchNorm F) (X : NDArray F),
     (r <- forward is_training self X ;;
      Ok (val (fst r), val (moving_mean (snd r)), val (moving_var (snd r))))
     = (g <- data (gamma self) ;;
        b <- data (beta self) ;;
        batch_norm is_training (val X) g b
          (val (moving_mean self)) (val (moving_var self))
          (lit (1 # 100000)) (lit (9 # 10)))).
Proof.
  split; [|split].
  - intros n d X gamma beta moving_mean moving_var eps momentum H.
    unfold matrix_input in H. split_input H.
    eexists _, _, _. split; [apply (batch_norm_train_2d_eq n d); assumption|].
    split; [apply has_shape_tabulate|]. split; [apply has_shape_tabulate|].
    intros j Hj. rewrite !tget_tabulate by solve_bounds. split; reflexivity.
  - intros n c h w X gamma beta moving_mean moving_var eps momentum H.
    unfold image_input in H. split_input H.
    eexists _, _, _.
    split; [apply (batch_norm_train_4d_eq n c h w); assumption|].
    split; [apply has_shape_tabulate|]. split; [apply has_shape_tabulate|].
    intros j Hj. rewrite !tget_tabulate by solve_bounds. split; reflexivity.
  - intros is_training self X. unfold forward.
    destruct (device_eqb (ctx (moving_mean self)) (ctx X));
      cbn [negb moving_mean moving_var gamma beta copyto ctx val];
      destruct (data (gamma self)) as [g|e]; cbn [bind]; try reflexivity;
      destruct (data (beta self)) as [b|e]; cbn [bind]; try reflexivity;
      destruct (batch_norm _ _ _ _ _ _ _ _) as [[[Y mm'] mv']|e];
      reflexivity.
Qed.

Lemma tall_Arr (P : F -> Prop) (l : list (tensor F)) :
  tall P (Arr l) <-> Forall (tall P) l.
Proof.
  induction l as [|x l IH].
  - split; intros _; [constructor|exact I].
  - split.
    + intros [Hx Hl]. constructor; [exact Hx|apply IH, Hl].
    + intros H. inversion H as [|? ? Hx Hl]; subst.
      split; [exact Hx|apply IH, Hl].
Qed.

Lemma tall_tmap (P Q : F -> Prop) (f : F -> F) (t : tensor F) :
  (forall x, P x -> Q (f x)) -> tall P t -> tall Q (tmap f t).
Proof.
  intros Hf. induction t as [x|l IH] using tensor_induction; intros Ht.
  - apply Hf, Ht.
  - apply tall_Arr in Ht. cbn [tmap]. apply tall_Arr.
    apply Forall_map. rewrite Forall_forall in *.
    intros x Hx. apply IH; [exact Hx|apply Ht, Hx].
Qed.


Lemma has_shape_full (s : list nat) (v : F) : has_shape s (full s v) = true.
Proof. rewrite full_tabulate. apply has_shape_tabulate. Qed.



End BatchNormClaims.

(** ** The divisor in float32

    Rounding to nearest never takes a positive number whose exponent is in
    range to zero: a shift to the right keeps the leading bits of the
    mantissa.  Hence the sum of a non-negative float32 and a positive one is
    positive, and so is the square root of a positive one. *)

(** Side conditions on powers of two. *)
Ltac pow2_side :=
  first [ lia
        | apply Z.pow_pos_nonneg; lia
        | apply Z.pow_nonzero; lia
        | apply Z.lt_le_incl, Z.pow_pos_nonneg; lia ].

Section FloatFacts.

Local Open Scope Z_scope.

Variables prec emax : Z.
Hypothesis Hprec : 0 < prec.
Hypothesis Hemax : 3 <= emax + prec.

Lemma emin_eq : emin prec emax = 3 - emax - prec.
Proof. reflexivity. Qed.

Lemma fexp_eq (e : Z) : fexp prec emax e = Z.max (e - prec) (emin prec emax).
Proof. reflexivity. Qed.

Lemma emin_nonpos : emin prec emax <= 0.
Proof. rewrite emin_eq. lia. Qed.

Lemma fexp_emin (e : Z) : emin prec emax <= fexp prec emax e.
Proof. rewrite fexp_eq. lia. Qed.

Lemma digits2_pos_lower (p : BinNums.positive) :
  2 ^ (Zpos (digits2_pos p) - 1) <= Zpos p.
Proof.
  induction p as [p IH|p IH|]; cbn [digits2_pos].
  - rewrite Pos2Z.inj_succ.
    replace (Z.succ (Zpos (digits2_pos p)) - 1)
      with (Z.succ (Zpos (digits2_pos p) - 1)) by lia.
    rewrite Z.pow_succ_r by lia. lia.
  - rewrite Pos2Z.inj_succ.
    replace (Z.succ (Zpos (digits2_pos p)) - 1)
      with (Z.succ (Zpos (digits2_pos p) - 1)) by lia.
    rewrite Z.pow_succ_r by lia. lia.
  - cbn. lia.
Qed.

Lemma shr_m_shr_1 (mrs : shr_record) :
  0 <= shr_m mrs -> shr_m (shr_1 mrs) = shr_m mrs / 2.
Proof.
  destruct mrs as [m r s]. cbn [shr_m]. intros Hm.
  destruct m as [|[p|p|]|p]; cbn [shr_1 shr_m]; try lia.
  - reflexivity.
  - apply Z.div_unique with 1; lia.
  - apply Z.div_unique with 0; lia.
  - reflexivity.
Qed.

Lemma shr_m_iter_pos (p : BinNums.positive) (mrs : shr_record) :
  0 <= shr_m mrs ->
  shr_m (iter_pos shr_1 p mrs) = shr_m mrs / 2 ^ Zpos p.
Proof.
  revert mrs. induction p as [p IH|p IH|]; intros mrs Hm; cbn [iter_pos].
  - assert (H1 : 0 <= shr_m (shr_1 mrs)).
    { rewrite shr_m_shr_1 by exact Hm. apply Z.div_pos; lia. }
    assert (H2 : 0 <= shr_m (iter_pos shr_1 p (shr_1 mrs))).
    { rewrite IH by exact H1. apply Z.div_pos; [exact H1|].
      apply Z.pow_pos_nonneg; lia. }
    rewrite IH by exact H2. rewrite IH by exact H1.
    rewrite shr_m_shr_1 by exact Hm.
    rewrite !Z.div_div by pow2_side.
    f_equal. rewrite <- (Z.pow_1_r 2) at 1.
    rewrite <- !Z.pow_add_r by lia. f_equal. lia.
  - assert (H2 : 0 <= shr_m (iter_pos shr_1 p mrs)).
    { rewrite IH by exact Hm. apply Z.div_pos; [exact Hm|].
      apply Z.pow_pos_nonneg; lia. }
    rewrite IH by exact H2. rewrite IH by exact Hm.
    rewrite !Z.div_div by pow2_side.
    f_equal. rewrite <- Z.pow_add_r by lia. f_equal. lia.
  - rewrite shr_m_shr_1 by exact Hm. reflexivity.
Qed.

Lemma shr_m_record_of_loc (m : Z) (l : location) :
  shr_m (shr_record_of_loc m l) = m.
Proof. destruct l as [|[]]; reflexivity. Qed.

(** Rounding a positive mantissa at an exponent not below [emin] keeps the
    mantissa positive, and never takes the exponent below [emin]. *)
Lemma shr_fexp_pos (m : BinNums.positive) (e : Z) (l : location) :
  emin prec emax <= e ->
  0 < shr_m (fst (shr_fexp prec emax (Zpos m) e l)) /\
  emin prec emax <= snd (shr_fexp prec emax (Zpos m) e l).
Proof.
  intros He. unfold shr_fexp, shr. cbn [Zdigits2].
  set (d := Zpos (digits2_pos m)).
  destruct (fexp prec emax (d + e) - e) as [|n|n] eqn:En; cbn [fst snd];
    rewrite ?shr_m_record_of_loc; try (split; [lia|exact He]).
  split.
  - rewrite shr_m_iter_pos by (rewrite shr_m_record_of_loc; lia).
    rewrite shr_m_record_of_loc.
    assert (Hn : Zpos n = d - prec) by (rewrite fexp_eq in En; lia).
    apply Z.div_str_pos. split; [apply Z.pow_pos_nonneg; lia|].
    rewrite Hn.
    apply Z.le_trans with (2 ^ (d - 1)); [|apply digits2_pos_lower].
    apply Z.pow_le_mono_r; lia.
  - lia.
Qed.

Lemma round_nearest_even_pos (m : Z) (l : location) :
  0 < m -> 0 < round_nearest_even m l.
Proof.
  intros Hm. destruct l as [|[]]; cbn [round_nearest_even]; try lia.
  destruct (Z.even m); lia.
Qed.

Lemma binary_round_aux_pos (m : BinNums.positive) (e : Z) (l : location) :
  emin prec emax <= e ->
  above_zero prec emax (binary_round_aux prec emax false (Zpos m) e l).
Proof.
  intros He. unfold binary_round_aux.
  pose proof (shr_fexp_pos m e l He) as [H1 H1e].
  destruct (shr_fexp prec emax (Zpos m) e l) as [mrs1 e1]. cbn [fst snd] in *.
  pose proof (round_nearest_even_pos _ (loc_of_shr_record mrs1) H1) as H2.
  destruct (round_nearest_even (shr_m mrs1) (loc_of_shr_record mrs1))
    as [|m2|m2]; try lia.
  pose proof (shr_fexp_pos m2 e1 loc_Exact H1e) as [H3 H3e].
  destruct (shr_fexp prec emax (Zpos m2) e1 loc_Exact) as [mrs3 e3].
  cbn [fst snd] in *.
  destruct (shr_m mrs3) as [|m3|m3]; try lia.
  destruct (e3 <=? emax - prec); cbn; [exact H3e|exact I].
Qed.

Lemma binary_round_pos (m : BinNums.positive) (e : Z) :
  emin prec emax <= e ->
  above_zero prec emax (binary_round prec emax false m e).
Proof.
  intros He. unfold binary_round, shl_align.
  destruct (fexp prec emax (Zpos (digits2_pos m) + e) - e) eqn:En;
    apply binary_round_aux_pos; try exact He.
  apply fexp_emin.
Qed.

Lemma shr_fexp_emin (m e : Z) (l : location) :
  emin prec emax <= snd (shr_fexp prec emax m e l).
Proof.
  unfold shr_fexp, shr.
  pose proof (fexp_emin (Zdigits2 m + e)) as Hf.
  destruct (fexp prec emax (Zdigits2 m + e) - e) as [|n|n] eqn:En;
    cbn [snd]; lia.
Qed.

(** A finite result of rounding has an exponent not below [emin]. *)
Lemma binary_round_aux_emin (sx : bool) (mx ex : Z) (lx : location) :
  match binary_round_aux prec emax sx mx ex lx with
  | S754_finite _ _ e => emin prec emax <= e
  | _ => True
  end.
Proof.
  unfold binary_round_aux.
  destruct (shr_fexp prec emax mx ex lx) as [mrs1 e1].
  pose proof (shr_fexp_emin
                (round_nearest_even (shr_m mrs1) (loc_of_shr_record mrs1))
                e1 loc_Exact) as H.
  destruct (shr_fexp prec emax _ e1 loc_Exact) as [mrs3 e3]. cbn [snd] in H.
  destruct (shr_m mrs3); try exact I.
  destruct (e3 <=? emax - prec); [exact H|exact I].
Qed.

Lemma binary_round_emin (sx : bool) (mx : BinNums.positive) (ex : Z) :
  match binary_round prec emax sx mx ex with
  | S754_finite _ _ e => emin prec emax <= e
  | _ => True
  end.
Proof.
  unfold binary_round.
  destruct (shl_align mx ex _) as [mz ez]. apply binary_round_aux_emin.
Qed.

Lemma above_zero_SFltb (x : spec_float) :
  above_zero prec emax x -> SFltb (S754_zero false) x = true.
Proof. destruct x as [s|[]| |[] m e]; cbn; intros H; try contradiction; reflexivity. Qed.

Lemma valid_binary_emin (s : bool) (m : BinNums.positive) (e : Z) :
  valid_binary prec emax (S754_finite s m e) = true -> emin prec emax <= e.
Proof.
  cbn [valid_binary]. unfold bounded, canonical_mantissa. intros H.
  apply andb_true_iff in H as [H _]. apply Z.eqb_eq in H.
  rewrite <- H. apply fexp_emin.
Qed.

(** Adding a float above zero to a float32 that is not negative gives a
    float above zero. *)
Lemma SFadd_pos (x y : spec_float) :
  valid_binary prec emax x = true ->
  SFleb (S754_zero false) x = true ->
  above_zero prec emax y ->
  above_zero prec emax (SFadd prec emax x y).
Proof.
  intros Hv Hx Hy.
  destruct y as [sy|[]| |[] my ey]; cbn in Hy; try contradiction.
  - destruct x as [sx|[]| |[] mx ex]; try discriminate Hx; exact I.
  - destruct x as [sx|[]| |[] mx ex]; try discriminate Hx;
      try exact I; try exact Hy.
    pose proof (valid_binary_emin _ _ _ Hv) as He.
    cbn [SFadd cond_Zopp]. cbn [Z.add binary_normalize].
    apply binary_round_pos. lia.
Qed.

(** The square root of a float above zero is above zero. *)
Lemma SFsqrt_pos (x : spec_float) :
  above_zero prec emax x -> above_zero prec emax (SFsqrt prec emax x).
Proof.
  intros Hx. destruct x as [s|[]| |[] m e]; cbn in Hx; try contradiction;
    [exact I|].
  cbn [SFsqrt]. unfold SFsqrt_core_binary. cbn [Zdigits2].
  set (d := Zpos (digits2_pos m)).
  set (e' := Z.min (fexp prec emax (Z.div2 (d + e + 1))) (Z.div2 e)).
  assert (He' : emin prec emax <= e' /\ 2 * e' <= e).
  { pose proof (fexp_emin (Z.div2 (d + e + 1))) as Hf.
    pose proof (Z.div2_odd e) as Ho. pose proof emin_nonpos as Hn.
    destruct (Z.odd e); cbn [Z.b2z] in Ho; subst e'; lia. }
  destruct He' as [He1 He2].
  set (m' := match e - 2 * e' with
             | 0 => Zpos m
             | Zpos _ => Z.shiftl (Zpos m) (e - 2 * e')
             | Zneg _ => 0
             end).
  assert (Hm' : 0 < m').
  { subst m'. destruct (e - 2 * e') as [|p|p] eqn:Es; try lia.
    rewrite Z.shiftl_mul_pow2 by lia.
    apply Z.mul_pos_pos; [lia|apply Z.pow_pos_nonneg; lia]. }
  pose proof (Z.sqrtrem_spec m' (Z.lt_le_incl _ _ Hm')) as Hs.
  destruct (Z.sqrtrem m') as [q r].
  assert (Hq : 0 < q) by nia.
  destruct q as [|q|q]; try lia.
  apply binary_round_aux_pos, He1.
Qed.

End FloatFacts.

Lemma to_float32_above_zero (x : spec_float) :
  SFltb (S754_zero false) (to_float32 x) = true ->
  above_zero 24 128 (to_float32 x).
Proof.
  destruct x as [s|[]| |s m e]; cbn [to_float32]; try discriminate;
    [intros _; exact I|].
  pose proof (binary_round_emin 24 128 s m e) as He.
  destruct (binary_round 24 128 s m e) as [s'|[]| |[] m' e'];
    try discriminate; intros _; [exact I|exact He].
Qed.

(** C10.  When [eps] is still above zero after its conversion to float32,
    the element type of the arrays, and the variance estimate is an array
    of float32 numbers none of which is negative or NaN, every element of
    the divisor [sqrt (var + eps)] is above zero: a positive float32 or plus
    infinity.  This divisor is the one [batch_norm] divides by, whatever the
    arithmetic of the elements: with [var] the incoming [moving_var] in
    prediction mode, and with [var] the variance of the batch in training
    mode.  The [eps] that [BatchNorm.forward] passes, [1e-5], is above zero
    in float32. *)
Theorem divisor_positive_float32 (var : tensor spec_float) (eps : spec_float) :
  SFltb (S754_zero false) (to_float32 eps) = true ->
  tall (fun v => valid_binary 24 128 v = true /\
                 SFleb (S754_zero false) v = true) var ->
  tall (fun d => SFltb (S754_zero false) d = true)
       (divisor var (to_float32 eps)) /\
  (forall (F : Type) (SF : Scalar F)
          (X gamma beta moving_mean moving_var : tensor F) (eps momentum : F),
     batch_norm false X gamma beta moving_mean moving_var eps momentum =
       (d <- bop ssub X moving_mean ;;
        X_hat <- bop sdiv d (divisor moving_var eps) ;;
        g <- bop smul gamma X_hat ;;
        Y <- bop sadd g beta ;;
        Ok (Y, moving_mean, moving_var))) /\
  (forall (F : Type) (SF : Scalar F)
          (X gamma beta moving_mean moving_var mean var : tensor F)
          (eps momentum : F),
     batch_stats X = Ok (mean, var) ->
     batch_norm true X gamma beta moving_mean moving_var eps momentum =
       (_ <- py_assert ((rank X =? 2) || (rank X =? 4)) ;;
        d <- bop ssub X mean ;;
        X_hat <- bop sdiv d (divisor var eps) ;;
        moving_mean' <- bop sadd (mul_scalar momentum moving_mean)
                                 (mul_scalar (ssub (lit 1) momentum) mean) ;;
        moving_var' <- bop sadd (mul_scalar momentum moving_var)
                                (mul_scalar (ssub (lit 1) momentum) var) ;;
        g <- bop smul gamma X_hat ;;
        Y <- bop sadd g beta ;;
        Ok (Y, moving_mean', moving_var'))) /\
  SFltb (S754_zero false) (lit (1 # 100000)) = true.
Proof.
  intros Heps Hvar. split; [|split; [|split]].
  - unfold divisor, nd_sqrt, plus_scalar.
    apply (tall_tmap (above_zero 24 128)).
    { intros x Hx. apply (above_zero_SFltb 24 128).
      apply (SFsqrt_pos 24 128); [lia|lia|exact Hx]. }
    eapply tall_tmap; [|exact Hvar].
    intros x [Hv Hx]. cbn [sadd Float32].
    apply (SFadd_pos 24 128); try assumption; try lia.
    apply to_float32_above_zero, Heps.
  - intros F SF X gamma beta moving_mean moving_var eps' momentum.
    apply batch_norm_predict_unfold.
  - intros F SF X gamma beta moving_mean moving_var mean var' eps' momentum Hst.
    apply batch_norm_train_unfold, Hst.
  - vm_compute. reflexivity.
Qed.

(** ** The claims about the VGG and NiN constructors *)

Section GluonClaims.

Import Gluon.

Lemma add_loop (A : Type) (c : block) (l : list A) (cs : list block) :
  fold_left (fun blk _ => add blk [c]) l (Sequential cs) =
  Sequential (cs ++ repeat c (length l)).
Proof.
  revert cs; induction l as [|x l IH]; intros cs; simpl.
  - rewrite app_nil_r. reflexivity.
  - rewrite IH, <- app_assoc. reflexivity.
Qed.

Lemma length_range (n : Z) : length (range n) = Z.to_nat n.
Proof. unfold range. rewrite length_map, length_seq. reflexivity. Qed.

Lemma filter_is_conv_repeat (c : block) (k : nat) :
  is_conv c = true -> filter is_conv (repeat c k) = repeat c k.
Proof.
  intros Hc. induction k as [|k IH]; simpl; [reflexivity|].
  rewrite Hc, IH. reflexivity.
Qed.

Lemma count_convs_repeat (c : block) (k : nat) (rest : list block) :
  fold_right (fun b acc => count_convs b + acc) 0 (repeat c k ++ rest) =
  k * count_convs c + fold_right (fun b acc => count_convs b + acc) 0 rest.
Proof.
  induction k as [|k IH]; simpl; [reflexivity|]. rewrite IH. lia.
Qed.

(** C5.  For [num_convs >= 0], [vgg_block(num_convs, num_channels)] is a
    sequential container of exactly [num_convs] convolutions, each with
    [num_channels] output channels, a 3x3 kernel, padding 1 and ReLU,
    followed by exactly one 2x2 max-pooling of stride 2. *)
Theorem vgg_block_layers (num_convs num_channels : Z) :
  (0 <= num_convs)%Z ->
  vgg_block num_convs num_channels =
    Sequential (repeat (Conv2D num_channels 3 1 1 (Some "relu"%string))
                       (Z.to_nat num_convs)
                ++ [MaxPool2D 2 2]) /\
  Z.of_nat (length (filter is_conv (children (vgg_block num_convs num_channels))))
    = num_convs /\
  Z.of_nat (length (children (vgg_block num_convs num_channels)))
    = (num_convs + 1)%Z /\
  Z.of_nat (count_convs (vgg_block num_convs num_channels)) = num_convs.
Proof.
  intros Hn.
  assert (E : vgg_block num_convs num_channels =
              Sequential (repeat (Conv2D num_channels 3 1 1 (Some "relu"%string))
                            (Z.to_nat num_convs) ++ [MaxPool2D 2 2])).
  { unfold vgg_block. rewrite add_loop, length_range. reflexivity. }
  split; [exact E|]. rewrite E. cbn [children].
  split; [|split].
  - rewrite filter_app. cbn [filter is_conv]. rewrite app_nil_r.
    rewrite filter_is_conv_repeat by reflexivity.
    rewrite repeat_length. lia.
  - rewrite length_app, repeat_length. simpl. lia.
  - cbn [count_convs]. rewrite count_convs_repeat. simpl. lia.
Qed.

(** C6.  [nin_block] is a sequential container of exactly three
    convolutions: one with the kernel size, strides and padding given, then
    two with a 1x1 kernel; all three have [num_channels] output channels and
    ReLU. *)
Theorem nin_block_layers (num_channels kernel_size strides padding : Z) :
  nin_block num_channels kernel_size strides padding =
    Sequential [Conv2D num_channels kernel_size strides padding
                  (Some "relu"%string);
                Conv2D num_channels 1 1 0 (Some "relu"%string);
                Conv2D num_channels 1 1 0 (Some "relu"%string)] /\
  length (children (nin_block num_channels kernel_size strides padding)) = 3 /\
  forallb is_conv (children (nin_block num_channels kernel_size strides padding))
    = true.
Proof. repeat split. Qed.

Lemma add_blocks (arch : list (Z * Z)) (cs : list block) :
  fold_left (fun net '(num_convs, num_channels) =>
               add net [vgg_block num_convs num_channels])
            arch (Sequential cs) =
  Sequential (cs ++ map (fun p => vgg_block (fst p) (snd p)) arch).
Proof.
  revert cs; induction arch as [|[k ch] arch IH]; intros cs; simpl.
  - rewrite app_nil_r. reflexivity.
  - rewrite IH, <- app_assoc. reflexivity.
Qed.

(** C7.  [vgg(conv_arch)] holds one [vgg_block] per pair of [conv_arch], in
    the order of the list and built from that pair, followed by
    Dense(4096), Dropout(0.5), Dense(4096), Dropout(0.5), Dense(10).  For
    the [conv_arch] of the notebook that is 5 blocks with 8 convolutions in
    all. *)
Theorem vgg_layers (arch : list (Z * Z)) :
  vgg arch =
    Sequential (map (fun p => vgg_block (fst p) (snd p)) arch
                ++ [Dense 4096 relu; Dropout (1 # 2);
                    Dense 4096 relu; Dropout (1 # 2);
                    Dense 10 None]) /\
  length (children (vgg arch)) = length arch + 5 /\
  length conv_arch = 5 /\
  count_convs (vgg conv_arch) = 8.
Proof.
  assert (E : vgg arch =
              Sequential (map (fun p => vgg_block (fst p) (snd p)) arch
                          ++ [Dense 4096 relu; Dropout (1 # 2);
                              Dense 4096 relu; Dropout (1 # 2);
                              Dense 10 None])).
  { unfold vgg. rewrite add_blocks. reflexivity. }
  split; [exact E|]. split; [|split; reflexivity].
  rewrite E. cbn [children]. rewrite length_app, length_map. reflexivity.
Qed.

End GluonClaims.

Lemma vgg_block_layers_witness :
  (0 <= 2)%Z /\
  Gluon.vgg_block 2 256 =
    Gluon.Sequential [Gluon.Conv2D 256 3 1 1 (Some "relu"%string);
                      Gluon.Conv2D 256 3 1 1 (Some "relu"%string);
                      Gluon.MaxPool2D 2 2].
Proof.
  split; [lia|]. apply (vgg_block_layers 2 256). lia.
Defined.

(** ** Witnesses and counterexamples *)

Lemma batch_norm_train_matrix_witness :
  matrix_input 2 2 Sample.X Sample.gamma Sample.beta
    Sample.moving_mean Sample.moving_var = true /\
  exists Y moving_mean' moving_var',
    batch_norm true Sample.X Sample.gamma Sample.beta
      Sample.moving_mean Sample.moving_var Sample.eps Sample.momentum
      = Ok (Y, moving_mean', moving_var') /\
    has_shape [2; 2] Y = true /\
    forall i j, i < 2 -> j < 2 ->
      tget [i; j] Y =
      sadd (smul (tget [0; j] Sample.gamma)
              (sdiv (ssub (tget [i; j] Sample.X) (col_mean 2 Sample.X j))
                    (ssqrt (sadd (col_var 2 Sample.X j) Sample.eps))))
           (tget [0; j] Sample.beta).
Proof.
  split; [reflexivity|].
  apply (batch_norm_train_matrix 2 2). reflexivity.
Defined.

(** C3, as stated, fails: in training mode an array with three axes is
    turned down by the [assert] of [batch_norm] itself, with Python's
    [AssertionError] and not an error of the framework. *)
Lemma batch_norm_asserts_rank :
  batch_norm true Sample.cube Sample.gamma Sample.beta
    Sample.moving_mean Sample.moving_var Sample.eps Sample.momentum
  = Raise AssertionError /\
  ~ native (batch_norm true Sample.cube Sample.gamma Sample.beta
              Sample.moving_mean Sample.moving_var Sample.eps Sample.momentum).
Proof.
  assert (E : batch_norm true Sample.cube Sample.gamma Sample.beta
                Sample.moving_mean Sample.moving_var Sample.eps Sample.momentum
              = Raise AssertionError) by reflexivity.
  split; [exact E|]. intros N. specialize (N _ E). discriminate N.
Qed.

(** C4, as stated, fails: for one image [[0, 2]] the mean [batch_norm]
    standardizes with is 1, taken over the two positions of the channel; the
    mean over the batch axis alone is the pixel itself, 0 at the first
    position. *)
Lemma batch_stats_not_batch_axis_alone :
  exists mean var,
    batch_stats Sample.image = Ok (mean, var) /\
    tget [0; 0; 0; 0] mean = 1%R /\
    axis0_mean 1 Sample.image 0 0 0 = 0%R /\
    tget [0; 0; 0; 0] mean <> axis0_mean 1 Sample.image 0 0 0.
Proof.
  eexists _, _. split.
  { apply (batch_stats_4d 1 1 1 2); [lia|lia|lia|lia|reflexivity]. }
  assert (E1 : tget [0; 0; 0; 0]
                 (tabulate [1; 1; 1; 1]
                    (fun idx => chan_mean 1 1 2 Sample.image (nth 1 idx 0)))
               = 1%R).
  { cbn. lra. }
  assert (E0 : axis0_mean 1 Sample.image 0 0 0 = 0%R).
  { cbn. lra. }
  split; [exact E1|]. split; [exact E0|].
  rewrite E1, E0. lra.
Qed.

Lemma batch_norm_two_branches_witness :
  matrix_input 2 2 Sample.X Sample.gamma Sample.beta
    Sample.moving_mean Sample.moving_var = true /\
  exists Y,
    batch_norm false Sample.X Sample.gamma Sample.beta
      Sample.moving_mean Sample.moving_var Sample.eps Sample.momentum
      = Ok (Y, Sample.moving_mean, Sample.moving_var) /\
    has_shape [2; 2] Y = true.
Proof.
  split; [reflexivity|].
  destruct (proj1 (proj2 batch_norm_two_branches) 2 2 Sample.X Sample.gamma
              Sample.beta Sample.moving_mean Sample.moving_var
              Sample.eps Sample.momentum eq_refl) as (Y & HY & Hs & _).
  exists Y. split; [exact HY|exact Hs].
Defined.

Lemma batch_stats_per_channel_witness :
  image_input 1 1 1 2 Sample.image Sample.gamma4 Sample.beta4
    Sample.moving_mean4 Sample.moving_var4 = true /\
  exists mean var,
    batch_stats Sample.image = Ok (mean, var) /\
    tget [0; 0; 0; 0] mean = chan_mean 1 1 2 Sample.image 0 /\
    tget [0; 0; 0; 0] var = chan_var 1 1 2 Sample.image 0.
Proof.
  split; [reflexivity|].
  destruct (batch_stats_per_channel 1 1 1 2 Sample.image Sample.gamma4
              Sample.beta4 Sample.moving_mean4 Sample.moving_var4
              Sample.eps Sample.momentum eq_refl)
    as (mean & var & _ & _ & _ & Hst & _ & _ & Hj & _).
  exists mean, var. split; [exact Hst|]. apply Hj. lia.
Defined.

Lemma moving_average_update_witness :
  matrix_input 2 2 Sample.X Sample.gamma Sample.beta
    Sample.moving_mean Sample.moving_var = true /\
  exists Y mm' mv',
    batch_norm true Sample.X Sample.gamma Sample.beta
      Sample.moving_mean Sample.moving_var Sample.eps Sample.momentum
      = Ok (Y, mm', mv') /\
    tget [0; 1] mm' =
      sadd (smul Sample.momentum (tget [0; 1] Sample.moving_mean))
           (smul (ssub (lit 1) Sample.momentum) (col_mean 2 Sample.X 1)).
Proof.
  split; [reflexivity|].
  destruct (proj1 moving_average_update 2 2 Sample.X Sample.gamma
              Sample.beta Sample.moving_mean Sample.moving_var
              Sample.eps Sample.momentum eq_refl)
    as (Y & mm' & mv' & HY & _ & _ & Hj).
  exists Y, mm', mv'. split; [exact HY|]. apply Hj. lia.
Defined.



Lemma divisor_positive_float32_witness :
  SFltb (S754_zero false) (to_float32 Sample32.eps) = true /\
  tall (fun v => valid_binary 24 128 v = true /\
                 SFleb (S754_zero false) v = true) Sample32.moving_var /\
  tall (fun d => SFltb (S754_zero false) d = true)
       (divisor Sample32.moving_var (to_float32 Sample32.eps)).
Proof.
  assert (He : SFltb (S754_zero false) (to_float32 Sample32.eps) = true)
    by (vm_compute; reflexivity).
  assert (Hv : tall (fun v => valid_binary 24 128 v = true /\
                              SFleb (S754_zero false) v = true)
                    Sample32.moving_var)
    by (vm_compute; repeat split).
  split; [exact He|]. split; [exact Hv|].
  apply (proj1 (divisor_positive_float32 Sample32.moving_var Sample32.eps
                  He Hv)).
Defined.

(** Where float32 stops telling a positive number from zero: [2.0 ** -149]
    is the least positive float32, [2.0 ** -150] is halfway to zero and is
    rounded to it. *)
Example to_float32_underflow :
  to_float32 (py_float (Qmake 1 (2 ^ 149))) = S754_finite false 1 (-149) /\
  to_float32 (py_float (Qmake 1 (2 ^ 150))) = S754_zero false.
Proof. split; vm_compute; reflexivity. Qed.

(** A Python float above zero that float32 cannot tell from zero,
    [eps = 2.0 ** -200]: with a moving variance of zero the divisor is zero;
    in prediction mode [batch_norm] divides 1 by it and returns plus
    infinity, and in training mode, on this batch of one row, it divides 0
    by it and returns NaN. *)
Lemma eps_underflow_divides_by_zero :
  (valid_binary 53 1024 Sample32.tiny_eps = true /\
   SFltb (S754_zero false) Sample32.tiny_eps = true /\
   to_float32 Sample32.tiny_eps = S754_zero false) /\
  tall (fun v => valid_binary 24 128 v = true /\
                 SFleb (S754_zero false) v = true) Sample32.moving_var /\
  divisor Sample32.moving_var (to_float32 Sample32.tiny_eps)
    = Arr [Arr [Scal (S754_zero false)]] /\
  ~ tall (fun d => SFltb (S754_zero false) d = true)
         (divisor Sample32.moving_var (to_float32 Sample32.tiny_eps)) /\
  batch_norm false Sample32.X Sample32.gamma Sample32.beta
    Sample32.moving_mean Sample32.moving_var
    (to_float32 Sample32.tiny_eps) (lit (9 # 10))
  = Ok (Arr [Arr [Scal (S754_infinity false)]],
        Sample32.moving_mean, Sample32.moving_var) /\
  exists moving_mean' moving_var',
    batch_norm true Sample32.X Sample32.gamma Sample32.beta
      Sample32.moving_mean Sample32.moving_var
      (to_float32 Sample32.tiny_eps) (lit (9 # 10))
    = Ok (Arr [Arr [Scal S754_nan]], moving_mean', moving_var').
Proof.
  split; [repeat split; vm_compute; reflexivity|].
  split; [vm_compute; repeat split|].
  split; [vm_compute; reflexivity|].
  split; [vm_compute; intros [[H _] _]; discriminate H|].
  split; [vm_compute; reflexivity|].
  eexists _, _. vm_compute. reflexivity.
Qed.

(** The numbers of one training step on the sample batch: the first column
    is 1, 3, with mean 2 and variance 1. *)
Example train_sample :
  exists Y mm' mv',
    batch_norm true Sample.X Sample.gamma Sample.beta
      Sample.moving_mean Sample.moving_var Sample.eps Sample.momentum
      = Ok (Y, mm', mv') /\
    tget [0; 0] Y = (- 1 / sqrt (1 + 1 / 100000))%R /\
    tget [0; 0] mm' = (1 / 5)%R /\
    tget [0; 0] mv' = (1 / 10)%R.
Proof.
  assert (Hm : col_mean 2 Sample.X 0 = 2%R) by (cbn; lra).
  assert (Hv : col_var 2 Sample.X 0 = 1%R).
  { unfold col_var. rewrite Hm. cbn. lra. }
  eexists _, _, _. split.
  { apply (batch_norm_train_2d_eq 2 2); try reflexivity; lia. }
  rewrite !tget_tabulate by reflexivity. cbn [nth]. rewrite Hm, Hv.
  unfold Sample.eps, Sample.momentum. cbn. unfold Q2R. cbn.
  repeat split; lra.
Qed.

(** * Further properties *)

(** ** The constructors of vgg.ipynb and nin.ipynb *)

Section NetFacts.

Import Gluon Nets.

Lemma vgg_block_eq (num_convs num_channels : Z) :
  vgg_block num_convs num_channels =
  Sequential (repeat (Conv2D num_channels 3 1 1 relu) (Z.to_nat num_convs)
              ++ [MaxPool2D 2 2]).
Proof. unfold vgg_block. rewrite add_loop, length_range. reflexivity. Qed.

Lemma vgg_eq (arch : list (Z * Z)) :
  vgg arch =
  Sequential (map (fun p => vgg_block (fst p) (snd p)) arch
              ++ [Dense 4096 relu; Dropout (1 # 2);
                  Dense 4096 relu; Dropout (1 # 2);
                  Dense 10 None]).
Proof. unfold vgg. rewrite add_blocks. reflexivity. Qed.

(** A count of convolutions that is zero or negative gives a block of the
    pooling layer alone: [range] of it is empty. *)
Theorem vgg_block_no_convs (num_convs num_channels : Z) :
  (num_convs <= 0)%Z ->
  vgg_block num_convs num_channels = Sequential [MaxPool2D 2 2].
Proof.
  intros Hn. rewrite vgg_block_eq.
  replace (Z.to_nat num_convs) with 0 by lia. reflexivity.
Qed.

Lemma count_convs_vgg_block (num_convs num_channels : Z) :
  count_convs (vgg_block num_convs num_channels) = Z.to_nat num_convs.
Proof.
  rewrite vgg_block_eq. cbn [count_convs].
  rewrite count_convs_repeat. simpl. lia.
Qed.

Lemma count_convs_app (l1 l2 : list block) :
  fold_right (fun b acc => count_convs b + acc) 0 (l1 ++ l2) =
  fold_right (fun b acc => count_convs b + acc) 0 l1 +
  fold_right (fun b acc => count_convs b + acc) 0 l2.
Proof.
  induction l1 as [|b l1 IH]; simpl; [reflexivity|]. rewrite IH. lia.
Qed.

Lemma count_convs_vgg_sum (arch : list (Z * Z)) :
  count_convs (vgg arch) =
  fold_right (fun p acc => Z.to_nat (fst p) + acc) 0 arch.
Proof.
  rewrite vgg_eq. cbn [count_convs]. rewrite count_convs_app.
  cbn [fold_right count_convs]. rewrite !Nat.add_0_r.
  induction arch as [|[k c] arch IH]; simpl; [reflexivity|].
  rewrite count_convs_vgg_block, IH. reflexivity.
Qed.

(** The number of convolutions of [vgg(conv_arch)] is the sum of the counts
    in [conv_arch], a negative count adding nothing; the fully connected
    part has none. *)
Theorem count_convs_vgg (arch : list (Z * Z)) :
  count_convs (vgg arch) =
  fold_right (fun p acc => Z.to_nat (fst p) + acc) 0 arch.
Proof. apply count_convs_vgg_sum. Qed.

Lemma shrink_eq (ratio : Z) (arch : list (Z * Z)) :
  ratio <> 0%Z ->
  shrink ratio arch = Some (map (fun p => (fst p, (snd p / ratio)%Z)) arch).
Proof.
  intros Hr. induction arch as [|p arch IH]; simpl; [reflexivity|].
  unfold floordiv. destruct (Z.eqb_spec ratio 0) as [E0|_]; [contradiction|].
  rewrite IH. reflexivity.
Qed.

(** With a ratio other than zero the comprehension keeps the number of
    pairs and every count of convolutions, and floor-divides every number of
    channels, so that the network built from the result has as many
    convolutions as the one built from [conv_arch].  With ratio 0 it raises
    [ZeroDivisionError] at the first pair; over an empty [conv_arch] nothing
    is divided and the result is the empty list. *)
Theorem shrink_spec (ratio : Z) (arch : list (Z * Z)) :
  (ratio <> 0%Z ->
   exists small,
     shrink ratio arch = Some small /\
     small = map (fun p => (fst p, (snd p / ratio)%Z)) arch /\
     length small = length arch /\
     map fst small = map fst arch /\
     count_convs (vgg small) = count_convs (vgg arch)) /\
  (ratio = 0%Z ->
   shrink ratio arch = match arch with [] => Some [] | _ :: _ => None end).
Proof.
  split.
  - intros Hr. eexists. split; [apply shrink_eq, Hr|].
    split; [reflexivity|]. split; [apply length_map|].
    split; [rewrite map_map; reflexivity|].
    rewrite !count_convs_vgg_sum.
    induction arch as [|p arch IH]; simpl; [reflexivity|]. rewrite IH.
    reflexivity.
  - intros ->. destruct arch as [|p arch]; reflexivity.
Qed.

(** *** Output shapes *)

Lemma window_ok (x k s p : Z) :
  (0 < k)%Z -> (0 < s)%Z -> (0 <= p)%Z -> (k <= x + 2 * p)%Z ->
  window x k s p = Ok ((x + 2 * p - k) / s + 1)%Z.
Proof.
  intros Hk Hs Hp Hx. unfold window.
  apply Z.ltb_lt in Hk, Hs. apply Z.leb_le in Hp, Hx.
  rewrite Hk, Hs, Hp, Hx. reflexivity.
Qed.

Lemma window_too_large (x k s p : Z) :
  (x + 2 * p < k)%Z -> window x k s p = Raise MXNetError.
Proof.
  intros Hx. unfold window.
  replace (k <=? x + 2 * p)%Z with false by (symmetry; apply Z.leb_gt; exact Hx).
  rewrite andb_false_r. reflexivity.
Qed.

Lemma out_shape_cons (b : block) (bs : list block) (s : list Z) :
  out_shape (Sequential (b :: bs)) s =
  (s' <- out_shape b s ;; out_shape (Sequential bs) s').
Proof. reflexivity. Qed.

Lemma out_shape_app (l1 l2 : list block) (s : list Z) :
  out_shape (Sequential (l1 ++ l2)) s =
  (s' <- out_shape (Sequential l1) s ;; out_shape (Sequential l2) s').
Proof.
  revert s; induction l1 as [|b l1 IH]; intros s; [reflexivity|].
  rewrite <- app_comm_cons, !out_shape_cons.
  destruct (out_shape b s) as [s'|e]; cbn [bind]; [apply IH|reflexivity].
Qed.

(** A 3x3 convolution with padding 1 and stride 1 keeps height and width. *)
Lemma out_shape_conv3 (ch n c h w : Z) :
  (0 < h)%Z -> (0 < w)%Z ->
  out_shape (Conv2D ch 3 1 1 relu) [n; c; h; w] = Ok [n; ch; h; w].
Proof.
  intros Hh Hw. cbn [out_shape]. unfold window2.
  rewrite !window_ok by lia. cbn [bind].
  replace ((h + 2 * 1 - 3) / 1 + 1)%Z with h by (rewrite Z.div_1_r; lia).
  replace ((w + 2 * 1 - 3) / 1 + 1)%Z with w by (rewrite Z.div_1_r; lia).
  reflexivity.
Qed.

Lemma out_shape_convs (ch : Z) (k : nat) (n c h w : Z) :
  (0 < h)%Z -> (0 < w)%Z ->
  out_shape (Sequential (repeat (Conv2D ch 3 1 1 relu) k)) [n; c; h; w] =
  Ok [n; match k with O => c | S _ => ch end; h; w].
Proof.
  intros Hh Hw. revert c; induction k as [|k IH]; intros c; [reflexivity|].
  cbn [repeat]. rewrite out_shape_cons, out_shape_conv3 by assumption.
  cbn [bind]. rewrite IH. destruct k; reflexivity.
Qed.

Lemma half_window (x : Z) : (2 <= x)%Z -> ((x + 2 * 0 - 2) / 2 + 1 = x / 2)%Z.
Proof.
  intros Hx. replace (x + 2 * 0 - 2)%Z with (x + (-1) * 2)%Z by lia.
  rewrite Z.div_add by lia. lia.
Qed.

Lemma out_shape_pool2 (n c h w : Z) :
  (0 < h)%Z -> (0 < w)%Z ->
  out_shape (MaxPool2D 2 2) [n; c; h; w] =
  if ((2 <=? h) && (2 <=? w))%Z then Ok [n; c; (h / 2)%Z; (w / 2)%Z]
  else Raise MXNetError.
Proof.
  intros Hh Hw. cbn [out_shape]. unfold window2.
  destruct (Z.leb_spec 2 h) as [H2h|H2h].
  - rewrite (window_ok h) by lia. cbn [bind andb].
    destruct (Z.leb_spec 2 w) as [H2w|H2w].
    + rewrite (window_ok w) by lia. cbn [bind].
      rewrite !half_window by assumption. reflexivity.
    + rewrite (window_too_large w) by lia. reflexivity.
  - rewrite (window_too_large h) by lia. reflexivity.
Qed.

Lemma vgg_block_shape (num_convs num_channels n c h w : Z) :
  (0 < h)%Z -> (0 < w)%Z ->
  out_shape (vgg_block num_convs num_channels) [n; c; h; w] =
  if ((2 <=? h) && (2 <=? w))%Z
  then Ok [n; if (0 <? num_convs)%Z then num_channels else c;
           (h / 2)%Z; (w / 2)%Z]
  else Raise MXNetError.
Proof.
  intros Hh Hw. rewrite vgg_block_eq, out_shape_app.
  rewrite out_shape_convs by assumption. cbn [bind].
  rewrite out_shape_cons, out_shape_pool2 by assumption.
  destruct ((2 <=? h) && (2 <=? w))%Z; cbn [bind]; [|reflexivity].
  cbn [out_shape]. do 2 f_equal.
  destruct (Z.ltb_spec 0 num_convs) as [Hk|Hk].
  - destruct (Z.to_nat num_convs) eqn:E; [lia|reflexivity].
  - replace (Z.to_nat num_convs) with 0 by lia. reflexivity.
Qed.

(** On a batch of [n >= 1] images of [c >= 1] channels, a VGG block of
    [num_channels >= 1] channels halves height and width, rounding down,
    and sets the number of channels when it has a convolution; it fails, in
    the framework, on an input with a height or width of 1, which its
    pooling window does not fit. *)
Theorem vgg_block_out_shape (num_convs num_channels n c h w : Z) :
  (0 < num_channels)%Z ->
  (0 < n)%Z -> (0 < c)%Z -> (0 < h)%Z -> (0 < w)%Z ->
  out_shape (vgg_block num_convs num_channels) [n; c; h; w] =
  if ((2 <=? h) && (2 <=? w))%Z
  then Ok [n; if (0 <? num_convs)%Z then num_channels else c;
           (h / 2)%Z; (w / 2)%Z]
  else Raise MXNetError.
Proof. intros _ _ _. apply vgg_block_shape. Qed.

(** The number of channels after the blocks of [conv_arch]. *)
Lemma blocks_out_shape (arch : list (Z * Z)) (rest : list block)
    (n c h w : Z) :
  (0 < h)%Z -> (0 < w)%Z ->
  out_shape (Sequential (map (fun p => vgg_block (fst p) (snd p)) arch ++ rest))
            [n; c; h; w] =
  if ((2 ^ Z.of_nat (length arch) <=? h) && (2 ^ Z.of_nat (length arch) <=? w))%Z
  then out_shape (Sequential rest)
         [n; fold_left (fun c p => if (0 <? fst p)%Z then snd p else c) arch c;
          (h / 2 ^ Z.of_nat (length arch))%Z;
          (w / 2 ^ Z.of_nat (length arch))%Z]
  else Raise MXNetError.
Proof.
  revert c h w; induction arch as [|[k ch] arch IH]; intros c h w Hh Hw.
  - cbn [map app length Z.of_nat Z.pow fold_left].
    replace ((1 <=? h) && (1 <=? w))%Z with true
      by (symmetry; apply andb_true_iff; split; apply Z.leb_le; lia).
    rewrite !Z.div_1_r. reflexivity.
  - cbn [map app length fold_left fst snd].
    rewrite out_shape_cons, vgg_block_shape by assumption.
    rewrite Nat2Z.inj_succ, Z.pow_succ_r by lia.
    set (a := (2 ^ Z.of_nat (length arch))%Z).
    assert (Ha : (0 < a)%Z) by (apply Z.pow_pos_nonneg; lia).
    destruct (Z.leb_spec 2 h) as [H2h|H2h];
      destruct (Z.leb_spec 2 w) as [H2w|H2w]; cbn [andb bind].
    + rewrite IH by (apply Z.div_str_pos; lia).
      fold a. rewrite !Z.div_div by lia.
      replace (a <=? h / 2)%Z with (2 * a <=? h)%Z.
      2:{ destruct (Z.leb_spec (2 * a) h), (Z.leb_spec a (h / 2));
            try reflexivity; exfalso; Z.div_mod_to_equations; lia. }
      replace (a <=? w / 2)%Z with (2 * a <=? w)%Z.
      2:{ destruct (Z.leb_spec (2 * a) w), (Z.leb_spec a (w / 2));
            try reflexivity; exfalso; Z.div_mod_to_equations; lia. }
      reflexivity.
    + replace (2 * a <=? w)%Z with false by (symmetry; apply Z.leb_gt; lia).
      rewrite andb_false_r. reflexivity.
    + replace (2 * a <=? h)%Z with false by (symmetry; apply Z.leb_gt; lia).
      reflexivity.
    + replace (2 * a <=? h)%Z with false by (symmetry; apply Z.leb_gt; lia).
      reflexivity.
Qed.

(** When every block of [conv_arch] has at least one channel,
    [vgg(conv_arch)] maps a batch of [n >= 1] images of [c >= 1] channels
    to [n] rows of 10 scores when height and width are at least 2 to the
    number of blocks, one halving for each block; on a smaller image it
    fails in the framework, at the pooling layer that meets a height or
    width of 1. *)
Theorem vgg_out_shape (arch : list (Z * Z)) (n c h w : Z) :
  Forall (fun pair_ => (0 < snd pair_)%Z) arch ->
  (0 < n)%Z -> (0 < c)%Z -> (0 < h)%Z -> (0 < w)%Z ->
  out_shape (vgg arch) [n; c; h; w] =
  if ((2 ^ Z.of_nat (length arch) <=? h) && (2 ^ Z.of_nat (length arch) <=? w))%Z
  then Ok [n; 10%Z]
  else Raise MXNetError.
Proof.
  intros _ _ _ Hh Hw. rewrite vgg_eq, blocks_out_shape by assumption.
  destruct (_ && _)%bool; reflexivity.
Qed.

Lemma nin_block_shape (num_channels kernel_size strides padding : Z)
    (n c h w : Z) :
  out_shape (nin_block num_channels kernel_size strides padding) [n; c; h; w] =
  window2 n num_channels h w kernel_size strides padding.
Proof.
  unfold nin_block. cbn [add app]. rewrite out_shape_cons. cbn [out_shape].
  unfold window2 at 1 2.
  unfold window at 1.
  destruct ((0 <? kernel_size) && (0 <? strides) && (0 <=? padding)
            && (kernel_size <=? h + 2 * padding))%Z eqn:Eh.
  2:{ unfold window2, window. rewrite Eh. reflexivity. }
  cbn [bind]. unfold window at 1.
  destruct ((0 <? kernel_size) && (0 <? strides) && (0 <=? padding)
            && (kernel_size <=? w + 2 * padding))%Z eqn:Ew.
  2:{ unfold window2, window. rewrite Eh, Ew. reflexivity. }
  cbn [bind].
  apply andb_true_iff in Eh as [Eh Hkh]. apply andb_true_iff in Eh as [Eh Hp].
  apply andb_true_iff in Eh as [Hk Hs].
  apply andb_true_iff in Ew as [_ Hkw].
  apply Z.ltb_lt in Hk, Hs. apply Z.leb_le in Hp, Hkh, Hkw.
  assert (Hh' : (1 <= (h + 2 * padding - kernel_size) / strides + 1)%Z).
  { assert (0 <= (h + 2 * padding - kernel_size) / strides)%Z
      by (apply Z.div_pos; lia). lia. }
  assert (Hw' : (1 <= (w + 2 * padding - kernel_size) / strides + 1)%Z).
  { assert (0 <= (w + 2 * padding - kernel_size) / strides)%Z
      by (apply Z.div_pos; lia). lia. }
  set (h' := ((h + 2 * padding - kernel_size) / strides + 1)%Z) in *.
  set (w' := ((w + 2 * padding - kernel_size) / strides + 1)%Z) in *.
  assert (E1 : forall x, (1 <= x)%Z -> window x 1 1 0 = Ok x).
  { intros x Hx. rewrite window_ok by lia. f_equal.
    rewrite Z.div_1_r. lia. }
  unfold window2. rewrite !E1 by assumption. cbn [bind].
  rewrite !E1 by assumption. cbn [bind].
  rewrite !window_ok by assumption. reflexivity.
Qed.

(** The two 1x1 convolutions of a NiN block change no shape and never fail
    after the first convolution: the block has the output shape of its
    first convolution, and fails when and as that one does. *)
Theorem nin_block_out_shape (num_channels kernel_size strides padding : Z)
    (n c h w : Z) :
  out_shape (nin_block num_channels kernel_size strides padding) [n; c; h; w] =
  window2 n num_channels h w kernel_size strides padding.
Proof. apply nin_block_shape. Qed.

Lemma window_spec (x k s p : Z) :
  (0 < k)%Z -> (0 < s)%Z -> (0 <= p)%Z ->
  window x k s p =
  if (k <=? x + 2 * p)%Z then Ok ((x + 2 * p - k) / s + 1)%Z
  else Raise MXNetError.
Proof.
  intros Hk Hs Hp. unfold window.
  apply Z.ltb_lt in Hk, Hs. apply Z.leb_le in Hp.
  rewrite Hk, Hs, Hp. reflexivity.
Qed.

(** The network of nin.ipynb maps a batch of [n] images to [n] rows of 10
    scores when height and width are at least 67; on a smaller image it
    fails in the framework, at the first window that does not fit. *)
Theorem nin_net_out_shape (n c h w : Z) :
  (0 < h)%Z -> (0 < w)%Z ->
  run layer_shape nin_net [n; c; h; w] =
  if ((67 <=? h) && (67 <=? w))%Z then Ok [n; 10%Z] else Raise MXNetError.
Proof.
  intros Hh Hw. unfold nin_net. cbn [run layer_shape].
  rewrite !nin_block_shape.
  repeat match goal with
         | |- context [out_shape (nin_block ?a ?b ?c ?d) _] =>
             rewrite (nin_block_shape a b c d)
         | |- context [window2 _ _ ?x ?y ?k ?s ?p] =>
             unfold window2 at 1;
             rewrite (window_spec x k s p) by lia;
             destruct (Z.leb_spec k (x + 2 * p)); cbn [bind];
             [ rewrite (window_spec y k s p) by lia;
               destruct (Z.leb_spec k (y + 2 * p)); cbn [bind out_shape]
             | ]
         end.
  all: destruct (Z.leb_spec 67 h); destruct (Z.leb_spec 67 w); cbn [andb];
    try reflexivity; exfalso; Z.div_mod_to_equations; lia.
Qed.

End NetFacts.

Lemma vgg_block_no_convs_witness :
  (-3 <= 0)%Z /\
  Gluon.vgg_block (-3) 64 = Gluon.Sequential [Gluon.MaxPool2D 2 2].
Proof. split; [lia|]. apply vgg_block_no_convs. lia. Defined.

Lemma shrink_spec_witness :
  Nets.ratio <> 0%Z /\
  Nets.small_conv_arch =
    Some [(1, 16); (1, 32); (2, 64); (2, 128); (2, 128)]%Z.
Proof.
  assert (H : Nets.ratio <> 0%Z) by discriminate.
  split; [exact H|].
  destruct (proj1 (shrink_spec Nets.ratio Gluon.conv_arch) H)
    as (small & E & -> & _).
  exact E.
Defined.

(** The shapes the notebooks print for one image of 224 by 224. *)
Example vgg_trace_224 :
  Nets.trace Nets.out_shape (Gluon.children (Gluon.vgg Gluon.conv_arch))
    [1; 1; 224; 224]%Z =
  Ok [[1; 64; 112; 112]; [1; 128; 56; 56]; [1; 256; 28; 28];
      [1; 512; 14; 14]; [1; 512; 7; 7];
      [1; 4096]; [1; 4096]; [1; 4096]; [1; 4096]; [1; 10]]%Z.
Proof. reflexivity. Qed.

Example nin_trace_224 :
  Nets.trace Nets.layer_shape Nets.nin_net [1; 1; 224; 224]%Z =
  Ok [[1; 96; 54; 54]; [1; 96; 26; 26]; [1; 256; 26; 26]; [1; 256; 12; 12];
      [1; 384; 12; 12]; [1; 384; 5; 5]; [1; 384; 5; 5]; [1; 10; 5; 5];
      [1; 10; 1; 1]; [1; 10]]%Z.
Proof. reflexivity. Qed.

(** Fashion-MNIST at its own size of 28 by 28 is too small for either
    network; resized to 224 it goes through, also with the slimmer VGG. *)
Example too_small_28 :
  Nets.out_shape (Gluon.vgg Gluon.conv_arch) [128; 1; 28; 28]%Z
    = Raise MXNetError /\
  Nets.run Nets.layer_shape Nets.nin_net [128; 1; 28; 28]%Z
    = Raise MXNetError /\
  option_map (fun net => Nets.out_shape net [128; 1; 224; 224]%Z)
    Nets.small_net = Some (Ok [128; 10]%Z).
Proof. repeat split; reflexivity. Qed.

Lemma vgg_block_out_shape_witness :
  (0 < 64)%Z /\ (0 < 1)%Z /\ (0 < 224)%Z /\
  Nets.out_shape (Gluon.vgg_block 1 64) [1; 1; 224; 224]%Z =
    Ok [1; 64; 112; 112]%Z.
Proof.
  split; [lia|]. split; [lia|]. split; [lia|].
  apply (vgg_block_out_shape 1 64 1 1 224 224); lia.
Defined.

Lemma vgg_out_shape_witness :
  Forall (fun pair_ => (0 < snd pair_)%Z) Gluon.conv_arch /\
  (0 < 1)%Z /\ (0 < 32)%Z /\
  Nets.out_shape (Gluon.vgg Gluon.conv_arch) [1; 1; 32; 32]%Z = Ok [1; 10]%Z /\
  Nets.out_shape (Gluon.vgg Gluon.conv_arch) [1; 1; 31; 32]%Z = Raise MXNetError.
Proof.
  assert (Harch : Forall (fun pair_ => (0 < snd pair_)%Z) Gluon.conv_arch)
    by (repeat constructor).
  split; [exact Harch|]. split; [lia|]. split; [lia|]. split.
  - apply (vgg_out_shape Gluon.conv_arch 1 1 32 32 Harch); lia.
  - apply (vgg_out_shape Gluon.conv_arch 1 1 31 32 Harch); lia.
Defined.

Lemma nin_net_out_shape_witness :
  (0 < 67)%Z /\ (0 < 67)%Z /\
  Nets.run Nets.layer_shape Nets.nin_net [1; 1; 67; 67]%Z = Ok [1; 10]%Z /\
  Nets.run Nets.layer_shape Nets.nin_net [1; 1; 67; 66]%Z = Raise MXNetError.
Proof.
  split; [lia|]. split; [lia|]. split.
  - apply (nin_net_out_shape 1 1 67 67); lia.
  - apply (nin_net_out_shape 1 1 67 66); lia.
Defined.

(** ** The layer in use *)

Section LayerFacts.

Context {F : Type} `{SF : Scalar F}.



Lemma rank_has_shape (s : list nat) (t : tensor F) :
  positive s = true -> has_shape s t = true -> rank t = length s.
Proof.
  intros Hs Ht. rewrite (tabulate_tget _ _ Ht). apply rank_tabulate, Hs.
Qed.



(** From construction to use: a layer as [__init__] leaves it fails in the
    framework on any input, its parameters not being initialized; once
    initialized it is ready, for rows of [num_features] features when
    [num_dims] is 2 and for images of [num_features] channels otherwise. *)
Theorem fresh_layer (num_features : nat) (num_dims : Z) :
  0 < num_features ->
  (forall is_training X,
     forward is_training (BatchNorm_init num_features num_dims) X
       = Raise MXNetError) /\
  (num_dims = 2%Z ->
   matrix_layer num_features
     (BatchNorm_initialize (BatchNorm_init num_features num_dims)) = true) /\
  (num_dims <> 2%Z ->
   image_layer num_features
     (BatchNorm_initialize (BatchNorm_init num_features num_dims)) = true).
Proof.
  intros Hf. split; [|split].
  - intros is_training X. unfold forward.
    destruct (negb _); reflexivity.
  - intros ->.
    unfold matrix_layer, BatchNorm_initialize, BatchNorm_init,
      param_initialize, params_get, nd_zeros.
    cbn [p_data gamma beta moving_mean moving_var val ctx p_shape p_init
         Z.eqb Pos.eqb device_eqb].
    rewrite !has_shape_full.
    replace (0 <? num_features) with true
      by (symmetry; apply Nat.ltb_lt; assumption).
    reflexivity.
  - intros Hd.
    unfold image_layer, BatchNorm_initialize, BatchNorm_init,
      param_initialize, params_get, nd_zeros.
    destruct (Z.eqb_spec num_dims 2) as [E|_]; [contradiction|].
    cbn [p_data gamma beta moving_mean moving_var val ctx p_shape p_init
         device_eqb].
    rewrite !has_shape_full.
    replace (0 <? num_features) with true
      by (symmetry; apply Nat.ltb_lt; assumption).
    reflexivity.
Qed.

(** In training mode, on a valid input, the output does not depend on the
    moving statistics handed in nor on the momentum: two calls on one batch
    with one [gamma], [beta] and [eps] return the same [Y].  This holds for
    a matrix with [(1, d)] parameters and moving statistics, and for a
    batch of images with [(1, c, 1, 1)] ones. *)
Theorem train_output_ignores_moving
    (X gamma beta mm1 mv1 mm2 mv2 : tensor F) (eps momentum1 momentum2 : F) :
  (forall n d,
     matrix_input n d X gamma beta mm1 mv1 = true ->
     matrix_input n d X gamma beta mm2 mv2 = true ->
     exists Y a1 b1 a2 b2,
       batch_norm true X gamma beta mm1 mv1 eps momentum1 = Ok (Y, a1, b1) /\
       batch_norm true X gamma beta mm2 mv2 eps momentum2 = Ok (Y, a2, b2)) /\
  (forall n c h w,
     image_input n c h w X gamma beta mm1 mv1 = true ->
     image_input n c h w X gamma beta mm2 mv2 = true ->
     exists Y a1 b1 a2 b2,
       batch_norm true X gamma beta mm1 mv1 eps momentum1 = Ok (Y, a1, b1) /\
       batch_norm true X gamma beta mm2 mv2 eps momentum2 = Ok (Y, a2, b2)).
Proof.
  split.
  - intros n d H1 H2. unfold matrix_input in H1, H2.
    split_input H1. split_input H2.
    eexists _, _, _, _, _. split.
    + apply (batch_norm_train_2d_eq n d); assumption.
    + apply (batch_norm_train_2d_eq n d); assumption.
  - intros n c h w H1 H2. unfold image_input in H1, H2.
    split_input H1. split_input H2.
    eexists _, _, _, _, _. split.
    + apply (batch_norm_train_4d_eq n c h w); assumption.
    + apply (batch_norm_train_4d_eq n c h w); assumption.
Qed.

(** The two modes differ on arrays with other than 2 or 4 axes.  When all
    five arrays have one shape, of any number of axes, prediction mode
    succeeds and works element by element; training mode on the same arrays
    ends in [AssertionError] unless there are 2 or 4 axes. *)
Theorem modes_on_other_ranks (s : list nat)
    (X gamma beta moving_mean moving_var : tensor F) (eps momentum : F) :
  same_shape_input s X gamma beta moving_mean moving_var = true ->
  (exists Y,
     batch_norm false X gamma beta moving_mean moving_var eps momentum
       = Ok (Y, moving_mean, moving_var) /\
     has_shape s Y = true /\
     forall idx, in_bounds s idx = true ->
       tget idx Y =
       sadd (smul (tget idx gamma)
               (sdiv (ssub (tget idx X) (tget idx moving_mean))
                     (ssqrt (sadd (tget idx moving_var) eps))))
            (tget idx beta)) /\
  (length s <> 2 -> length s <> 4 ->
   batch_norm true X gamma beta moving_mean moving_var eps momentum
     = Raise AssertionError).
Proof.
  intros Hin. unfold same_shape_input in Hin.
  repeat (let H' := fresh "Hin" in apply andb_true_iff in Hin as [Hin H']).
  rename Hin into Hs, Hin0 into Hmv, Hin1 into Hmm, Hin2 into Hb,
    Hin3 into Hg, Hin4 into HX.
  split.
  - eexists. split; [|split].
    + match goal with |- _ = Ok (?y, _, _) => set (rhs := y) end.
      rewrite batch_norm_predict_unfold.
      rewrite (tabulate_tget _ _ HX) at 1.
      rewrite (tabulate_tget _ _ Hmm) at 1.
      rewrite bop_same by exact Hs. cbn [bind].
      unfold divisor, nd_sqrt, plus_scalar.
      rewrite (tabulate_tget _ _ Hmv) at 1. rewrite !tmap_tabulate.
      rewrite bop_same by exact Hs. cbn [bind].
      rewrite (tabulate_tget _ _ Hg) at 1.
      rewrite bop_same by exact Hs. cbn [bind].
      rewrite (tabulate_tget _ _ Hb) at 1.
      rewrite bop_same by exact Hs. cbn [bind].
      subst rhs. reflexivity.
    + apply has_shape_tabulate.
    + intros idx Hidx. rewrite tget_tabulate by exact Hidx. reflexivity.
  - intros N2 N4. unfold batch_norm. cbn [negb].
    rewrite (rank_has_shape s X Hs HX).
    destruct (Nat.eqb_spec (length s) 2) as [E|_]; [contradiction|].
    destruct (Nat.eqb_spec (length s) 4) as [E|_]; [contradiction|].
    reflexivity.
Qed.

Lemma mapM_map_fail {A B C : Type} (f : B -> result C) (g : A -> B)
    (l : list A) (e : exn) :
  l <> [] -> (forall x, In x l -> f (g x) = Raise e) ->
  mapM f (map g l) = Raise e.
Proof.
  intros Hl Hf. destruct l as [|x l]; [contradiction|]. simpl.
  rewrite (Hf x) by (left; reflexivity). reflexivity.
Qed.

Lemma zipM_map_fail {A B B' C : Type} (f : B -> B' -> result C)
    (g : A -> B) (g' : A -> B') (l : list A) (e : exn) :
  l <> [] -> (forall x, In x l -> f (g x) (g' x) = Raise e) ->
  zipM f (map g l) (map g' l) = Raise e.
Proof.
  intros Hl Hf. destruct l as [|x l]; [contradiction|]. simpl.
  rewrite (Hf x) by (left; reflexivity). reflexivity.
Qed.

Lemma seq_nonempty (n : nat) : 0 < n -> seq 0 n <> [].
Proof. destruct n; [lia|discriminate]. Qed.

(** Shapes that cannot be broadcast together are refused. *)
Lemma bcast2_tabulate_incompatible (f : F -> F -> F) (sa sb : list nat)
    (g h : list nat -> F) :
  length sa = length sb ->
  positive sa = true -> positive sb = true ->
  compatible sa sb = false ->
  bcast2 f (tabulate sa g) (tabulate sb h) = Raise MXNetError.
Proof.
  revert sb g h; induction sa as [|n sa IH]; intros [|m sb] g h Hlen Ha Hb Hc;
    simpl in Hlen; try discriminate.
  injection Hlen as Hlen.
  simpl in Ha, Hb. apply andb_true_iff in Ha as [Hn Ha], Hb as [Hm Hb].
  apply Nat.ltb_lt in Hn, Hm. cbn [compatible] in Hc.
  cbn [tabulate]. rewrite bcast2_Arr, !length_map, !length_seq.
  destruct (Nat.eqb_spec n m) as [->|Hnm].
  - cbn [orb andb] in Hc.
    rewrite zipM_map_fail with (e := MXNetError);
      [reflexivity|apply seq_nonempty, Hm|].
    intros i _. apply IH; assumption.
  - destruct (Nat.eqb_spec n 1) as [->|Hn1].
    + cbn [orb andb] in Hc. cbn [seq map].
      rewrite mapM_map_fail with (e := MXNetError);
        [reflexivity|apply seq_nonempty, Hm|].
      intros i _. apply IH; assumption.
    + destruct (Nat.eqb_spec m 1) as [->|Hm1].
      * cbn [orb andb] in Hc.
        assert (Hf : mapM (fun x => bcast2 f x (tabulate sb (fun idx => h (0 :: idx))))
                       (map (fun i => tabulate sa (fun idx => g (i :: idx))) (seq 0 n))
                     = Raise MXNetError).
        { apply mapM_map_fail; [apply seq_nonempty, Hn|].
          intros i _. apply IH; assumption. }
        destruct n as [|[|n]]; [lia|lia|].
        cbn [seq map] in *. rewrite Hf. reflexivity.
      * destruct n as [|[|n]]; [lia|lia|].
        destruct m as [|[|m]]; [lia|lia|]. reflexivity.
Qed.

Lemma positive_pad (k : nat) (s : list nat) :
  positive s = true -> positive (repeat 1 k ++ s) = true.
Proof. intros Hs. induction k as [|k IH]; simpl; assumption. Qed.

Lemma bop_tabulate_incompatible (f : F -> F -> F) (sa sb : list nat)
    (g h : list nat -> F) :
  positive sa = true -> positive sb = true ->
  compatible (repeat 1 (length sb - length sa) ++ sa)
             (repeat 1 (length sa - length sb) ++ sb) = false ->
  bop f (tabulate sa g) (tabulate sb h) = Raise MXNetError.
Proof.
  intros Ha Hb Hc. unfold bop.
  rewrite !rank_tabulate by assumption. rewrite !lift_tabulate.
  apply bcast2_tabulate_incompatible; try apply positive_pad; try assumption.
  rewrite !length_app, !repeat_length. lia.
Qed.

Lemma incompatible_features (d d' : nat) :
  d <> d' -> d <> 1 -> d' <> 1 ->
  ((d =? d') || (d =? 1) || (d' =? 1)) = false.
Proof.
  intros H1 H2 H3.
  destruct (Nat.eqb_spec d d'), (Nat.eqb_spec d 1), (Nat.eqb_spec d' 1);
    try contradiction; reflexivity.
Qed.

(** A layer made for [d'] features meets rows of [d] features, with
    neither number 1: [batch_norm] fails with the framework's error, in
    prediction mode at [X - moving_mean] and in training mode at the update
    of the moving mean. *)
Theorem feature_mismatch (is_training : bool) (n d d' : nat)
    (X gamma beta moving_mean moving_var : tensor F) (eps momentum : F) :
  0 < n -> 0 < d -> 0 < d' ->
  d <> d' -> d <> 1 -> d' <> 1 ->
  has_shape [n; d] X = true ->
  has_shape [1; d'] gamma = true -> has_shape [1; d'] beta = true ->
  has_shape [1; d'] moving_mean = true -> has_shape [1; d'] moving_var = true ->
  batch_norm is_training X gamma beta moving_mean moving_var eps momentum
    = Raise MXNetError.
Proof.
  intros Hn Hd Hd' N N1 N1' HX Hg Hb Hmm Hmv.
  pose proof (positive_2 _ _ Hn Hd) as Hs.
  pose proof (positive_2 1 d' Nat.lt_0_1 Hd') as Hs'.
  pose proof (incompatible_features d d' N N1 N1') as Hi.
  destruct is_training.
  - unfold batch_norm. cbn [negb].
    rewrite (batch_stats_2d n d X Hn Hd HX).
    rewrite (rank_has_shape [n; d] X Hs HX).
    cbn [length Nat.eqb orb py_assert bind].
    rewrite (tabulate_tget _ _ HX) at 1.
    rewrite bop_mat_vec by exact Hs. cbn [bind].
    unfold divisor, nd_sqrt, plus_scalar, mul_scalar. rewrite !tmap_tabulate.
    rewrite bop_mat_vec by exact Hs. cbn [bind].
    rewrite (tabulate_tget _ _ Hmm) at 1. rewrite tmap_tabulate.
    rewrite bop_tabulate_incompatible; [reflexivity|exact Hs'| |].
    + simpl. apply Nat.ltb_lt in Hd. rewrite Hd. reflexivity.
    + cbn. rewrite Nat.eqb_sym in Hi.
      replace ((d' =? d) || (d' =? 1) || (d =? 1))
        with ((d' =? d) || (d =? 1) || (d' =? 1))
        by (destruct (d' =? d), (d =? 1), (d' =? 1); reflexivity).
      rewrite Hi. reflexivity.
  - rewrite batch_norm_predict_unfold.
    rewrite (tabulate_tget _ _ HX) at 1.
    rewrite (tabulate_tget _ _ Hmm) at 1.
    rewrite bop_tabulate_incompatible; [reflexivity|exact Hs|exact Hs'|].
    cbn. rewrite Hi. destruct ((n =? 1) || (n =? 1) || true); reflexivity.
Qed.

End LayerFacts.

(** ** Witnesses of the further properties *)



Lemma fresh_layer_witness :
  0 < 6 /\
  image_layer 6 (BatchNorm_initialize (@BatchNorm_init R _ 6 4)) = true.
Proof.
  split; [lia|].
  apply (proj2 (proj2 (@fresh_layer R _ 6 4 ltac:(lia)))). discriminate.
Defined.

Lemma train_output_ignores_moving_witness :
  matrix_input 2 2 Sample.X Sample.gamma Sample.beta
    Sample.moving_mean Sample.moving_var = true /\
  matrix_input 2 2 Sample.X Sample.gamma Sample.beta
    Sample.gamma Sample.gamma = true /\
  exists Y a1 b1 a2 b2,
    batch_norm true Sample.X Sample.gamma Sample.beta
      Sample.moving_mean Sample.moving_var Sample.eps Sample.momentum
      = Ok (Y, a1, b1) /\
    batch_norm true Sample.X Sample.gamma Sample.beta
      Sample.gamma Sample.gamma Sample.eps 0%R
      = Ok (Y, a2, b2).
Proof.
  split; [reflexivity|]. split; [reflexivity|].
  apply (proj1 (train_output_ignores_moving Sample.X Sample.gamma Sample.beta
                  Sample.moving_mean Sample.moving_var
                  Sample.gamma Sample.gamma Sample.eps Sample.momentum 0%R)
           2 2); reflexivity.
Defined.

Lemma modes_on_other_ranks_witness :
  same_shape_input [1; 1; 1] Sample.cube Sample.cube Sample.cube
    Sample.cube Sample.cube = true /\
  (exists Y,
     batch_norm false Sample.cube Sample.cube Sample.cube Sample.cube
       Sample.cube Sample.eps Sample.momentum
       = Ok (Y, Sample.cube, Sample.cube)) /\
  batch_norm true Sample.cube Sample.cube Sample.cube Sample.cube
    Sample.cube Sample.eps Sample.momentum = Raise AssertionError.
Proof.
  split; [reflexivity|].
  destruct (modes_on_other_ranks [1; 1; 1] Sample.cube Sample.cube Sample.cube
              Sample.cube Sample.cube Sample.eps Sample.momentum eq_refl)
    as [(Y & HY & _) Ht].
  split; [exists Y; exact HY|]. apply Ht; discriminate.
Defined.

Lemma feature_mismatch_witness :
  let three := Arr [Arr [Scal 0%R; Scal 0%R; Scal 0%R]] in
  has_shape [2; 2] Sample.X = true /\ has_shape [1; 3] three = true /\
  batch_norm true Sample.X three three three three Sample.eps Sample.momentum
    = Raise MXNetError.
Proof.
  intros three. split; [reflexivity|]. split; [reflexivity|].
  apply (feature_mismatch true 2 2 3); try reflexivity; lia.
Defined.
